(** * kibela-toc: the table-of-contents core of [kibela_toc.py]

    A shallow embedding of the text-processing methods of
    [KibelaTOCGenerator] ([extract_headings], [generate_anchor],
    [generate_toc], [find_existing_toc], [insert_or_update_toc]) and of the
    control flow of [process_note], followed by the properties of the
    specification, each settled against these definitions.

    Python's [str] is a sequence of Unicode code points: a string is a
    [list N].  The regular expressions of the source are sequences of
    quantified character classes; they are kept as data and run by a small
    greedy, backtracking matcher. *)

From Stdlib Require Import String Ascii.
From Stdlib Require Import List NArith ZArith Bool Arith Lia Sorted.
Import ListNotations.

(** ** Strings *)

Definition char := N.
Definition str := list char.

(** An ASCII literal of the source, as code points. *)
Definition py (s : string) : str := map N_of_ascii (list_ascii_of_string s).

Definition NL : char := 10%N.
Definition nl : str := [NL].

Fixpoint str_eqb (a b : str) : bool :=
  match a, b with
  | [], [] => true
  | x :: a', y :: b' => N.eqb x y && str_eqb a' b'
  | _, _ => false
  end.

(** [c.isspace()] on one code point ([Py_UNICODE_ISSPACE]); the same set is
    what [str.strip()] removes and what [\s] matches in a [str] pattern. *)
Definition isspace (c : char) : bool :=
  ((9 <=? c) && (c <=? 13) || (28 <=? c) && (c <=? 32)
   || (c =? 133) || (c =? 160) || (c =? 5760)
   || (8192 <=? c) && (c <=? 8202)
   || (c =? 8232) || (c =? 8233) || (c =? 8239) || (c =? 8287)
   || (c =? 12288))%N.

Fixpoint dropwhile (p : char -> bool) (s : str) : str :=
  match s with
  | [] => []
  | c :: r => if p c then dropwhile p r else s
  end.

Definition lstrip_by (p : char -> bool) (s : str) : str := dropwhile p s.
Definition rstrip_by (p : char -> bool) (s : str) : str := rev (dropwhile p (rev s)).
Definition strip_by (p : char -> bool) (s : str) : str := rstrip_by p (lstrip_by p s).

(** [s.strip()] *)
Definition strip (s : str) : str := strip_by isspace s.

(** [s.strip(chars)] *)
Definition strip_chars (chars : str) (s : str) : str :=
  strip_by (fun c => existsb (N.eqb c) chars) s.

(** [s.startswith(prefix)] *)
Fixpoint startswith (s prefix : str) : bool :=
  match prefix, s with
  | [], _ => true
  | p :: ps, c :: cs => N.eqb c p && startswith cs ps
  | _ :: _, [] => false
  end.

(** [s.split(sep)] for a one-character separator: never the empty list. *)
Fixpoint split (sep : char) (s : str) : list str :=
  match s with
  | [] => [[]]
  | c :: r =>
      if N.eqb c sep then [] :: split sep r
      else match split sep r with
           | l :: ls => (c :: l) :: ls
           | [] => [[c]]
           end
  end.

(** [sep.join(ls)] *)
Fixpoint join (sep : str) (ls : list str) : str :=
  match ls with
  | [] => []
  | l :: ls' =>
      match ls' with
      | [] => l
      | _ :: _ => l ++ sep ++ join sep ls'
      end
  end.

(** [s * n] for an [int] n: empty when [n <= 0]. *)
Definition str_mul (s : str) (n : Z) : str := concat (repeat s (Z.to_nat n)).

(** Truthiness of a string: [if s:] holds for a non-empty one. *)
Definition truthy (s : str) : bool :=
  match s with [] => false | _ :: _ => true end.

(** ** Regular expressions

    Every pattern of the source is a sequence of character classes, each
    with a repetition range, optionally closed by [$].  [Item p lo hi] is
    the class [p] repeated [lo] to [hi] times ([None]: unbounded), greedy. *)

Record item := Item { cls : char -> bool; lo : nat; hi : option nat }.

(** Number of leading characters of [s] in class [p], at most [cap]. *)
Fixpoint span (p : char -> bool) (cap : option nat) (s : str) : nat :=
  match cap with
  | Some 0 => 0
  | _ =>
      match s with
      | [] => 0
      | c :: r =>
          if p c then S (span p (option_map Nat.pred cap) r) else 0
      end
  end.

(** [$]: at the end of the string, or just before a final newline. *)
Definition dollar (s : str) : bool :=
  match s with
  | [] => true
  | [c] => N.eqb c NL
  | _ => false
  end.

(** Greedy repetition with backtracking: consume [k] characters, if the
    rest of the pattern fails give one back, down to [lo]. *)
Fixpoint try_down (k lo : nat) (s : str) (cont : str -> option (list str))
  : option (list str) :=
  if k <? lo then None
  else match cont (skipn k s) with
       | Some gs => Some (firstn k s :: gs)
       | None =>
           match k with
           | 0 => None
           | S k' => try_down k' lo s cont
           end
       end.

(** [re.match(pattern, s)]: the pattern is anchored at the start of [s];
    the result lists the text matched by each item, in order. *)
Fixpoint re_match (its : list item) (anchored_end : bool) (s : str)
  : option (list str) :=
  match its with
  | [] => if anchored_end then (if dollar s then Some [] else None) else Some []
  | it :: rest =>
      try_down (span (cls it) (hi it) s) (lo it) s (re_match rest anchored_end)
  end.

(** [re.sub(pattern, repl, s)]: leftmost matches, not overlapping, each
    replaced by [repl]; [skip] counts the characters of the current match
    still to be passed over.  (The patterns of the source match at least one
    character; an empty match would insert [repl] before the character.) *)
Fixpoint re_sub_go (its : list item) (repl : str) (skip : nat) (s : str) : str :=
  match s with
  | [] => []
  | c :: r =>
      match skip with
      | S k => re_sub_go its repl k r
      | 0 =>
          match re_match its false s with
          | Some gs =>
              match length (concat gs) with
              | 0 => repl ++ c :: re_sub_go its repl 0 r
              | S k => repl ++ re_sub_go its repl k r
              end
          | None => c :: re_sub_go its repl 0 r
          end
      end
  end.

Definition re_sub (its : list item) (repl : str) (s : str) : str :=
  re_sub_go its repl 0 s.

(** Character classes of the patterns. *)
Definition is_hash (c : char) : bool := N.eqb c 35.
Definition dot (c : char) : bool := negb (N.eqb c NL).

(** [r'^(#{1,6})\s+(.+)$'] *)
Definition heading_re : list item :=
  [Item is_hash 1 (Some 6); Item isspace 1 None; Item dot 1 None].

(** [r'^#{1,2}\s+'] *)
Definition h12_re : list item :=
  [Item is_hash 1 (Some 2); Item isspace 1 None].

(** [r'[*_`]'] *)
Definition markers_re : list item :=
  [Item (fun c => N.eqb c 42 || N.eqb c 95 || N.eqb c 96) 1 (Some 1)].

(** [r'[\s_-]+'] *)
Definition seps_re : list item :=
  [Item (fun c => isspace c || N.eqb c 95 || N.eqb c 45) 1 None].

(** [bool(re.match(...))] *)
Definition matches (its : list item) (anchored_end : bool) (s : str) : bool :=
  match re_match its anchored_end s with Some _ => true | None => false end.

(** ** The generator *)

(** A heading, the dict built by [extract_headings]. *)
Record Heading := mkHeading {
  level : Z;
  text : str;
  anchor : str;
  line : nat
}.

(** The recognised headers: ['## 目次'] (U+76EE U+6B21),
    ['## Table of Contents'], ['## TOC']. *)
Definition toc_header : str := py "## " ++ [30446%N; 27425%N].
Definition toc_headers : list str :=
  [toc_header; py "## Table of Contents"; py "## TOC"].

(** [x in xs] on strings *)
Definition str_in (x : str) (xs : list str) : bool := existsb (str_eqb x) xs.

Section Generator.

(** The Unicode character database is not part of the repository: the
    per-character test behind [\w] ([c.isalnum()]) and the case mapping
    [str.lower()] are parameters. *)
Variable isalnum : char -> bool.
Variable lower : str -> str.

(** [\w] in a [str] pattern: alphanumeric or underscore. *)
Definition isword (c : char) : bool := isalnum c || N.eqb c 95.

(** [r'[^\w\s-]'] *)
Definition junk_re : list item :=
  [Item (fun c => negb (isword c || isspace c || N.eqb c 45)) 1 (Some 1)].

Definition generate_anchor (text : str) : str :=
  let text := re_sub markers_re [] text in
  let anchor := re_sub junk_re [] (lower text) in
  let anchor := re_sub seps_re (py "-") anchor in
  strip_chars (py "-") anchor.

(** The body of the loop of [extract_headings] for one line: the entries
    it appends. *)
Definition heading_of_line (max_depth : Z) (line_num : nat) (line : str)
  : list Heading :=
  let line := strip line in
  match re_match heading_re true line with
  | Some [g1; _; g2] =>
      let level := Z.of_nat (length g1) in
      let text := strip g2 in
      if (level <=? max_depth)%Z
      then [mkHeading level text (generate_anchor text) line_num]
      else []
  | _ => []
  end.

(** [for line_num, line in enumerate(lines, line_num)] *)
Fixpoint extract_loop (max_depth : Z) (line_num : nat) (lines : list str)
  : list Heading :=
  match lines with
  | [] => []
  | l :: rest =>
      heading_of_line max_depth line_num l
      ++ extract_loop max_depth (S line_num) rest
  end.

Definition extract_headings (content : str) (max_depth : Z) : list Heading :=
  extract_loop max_depth 1 (split NL content).

End Generator.

Definition toc_entry (h : Heading) : str :=
  let indent := str_mul (py "  ") (level h - 1) in
  let link := py "[" ++ text h ++ py "](#" ++ anchor h ++ py ")" in
  indent ++ py "- " ++ link.

Definition generate_toc (headings : list Heading) : str :=
  match headings with
  | [] => []
  | _ :: _ =>
      let toc_lines := [toc_header; []] ++ map toc_entry headings in
      let toc_lines := toc_lines ++ [[]] in
      join nl toc_lines
  end.

(** [lines[k]] for an index in range. *)
Definition line_at (lines : list str) (k : nat) : str := nth k lines [].

(** [for k in range(k, k - cnt, -1): if lines[k].strip(): return k + 1] *)
Fixpoint look_back (lines : list str) (k cnt : nat) : option nat :=
  match cnt with
  | 0 => None
  | S cnt' =>
      if truthy (strip (line_at lines k)) then Some (k + 1)
      else look_back lines (k - 1) cnt'
  end.

(** The loop [for j in range(i + 1, len(lines))] of [find_existing_toc],
    entered at [j] with [rest = lines[j:]]; the result is [toc_end] when
    the loop is left. *)
Fixpoint scan_end (lines : list str) (i j : nat) (rest : list str)
  : option nat :=
  match rest with
  | [] => None
  | l :: rest' =>
      let next_line := strip l in
      if matches h12_re false next_line
         && negb (startswith next_line (py "###"))
      then Some j
      else if (i + 1 <? j) && truthy next_line
              && negb (startswith next_line (py "-"))
              && negb (startswith next_line (py "  -"))
      then look_back lines (j - 1) (j - 1 - i)
      else scan_end lines i (S j) rest'
  end.

(** What follows [toc_start = i]: the forward scan, then the fallback. *)
Definition toc_end_from (lines : list str) (i : nat) : option nat :=
  match scan_end lines i (i + 1) (skipn (i + 1) lines) with
  | Some e => Some e
  | None => look_back lines (length lines - 1) (length lines - 1 - i)
  end.

(** The outer loop [for i, line in enumerate(lines)], entered at [i] with
    [rest = lines[i:]]. *)
Fixpoint find_loop (lines : list str) (i : nat) (rest : list str)
  : option nat * option nat :=
  match rest with
  | [] => (None, None)
  | l :: rest' =>
      if str_in (strip l) toc_headers
      then (Some i, toc_end_from lines i)
      else find_loop lines (S i) rest'
  end.

Definition find_existing_toc (content : str) : option nat * option nat :=
  let lines := split NL content in
  find_loop lines 0 lines.

(** [while insert_pos < len(lines) and not lines[insert_pos].strip()],
    with [rest = lines[insert_pos:]]. *)
Fixpoint skip_blank (insert_pos : nat) (rest : list str) : nat :=
  match rest with
  | [] => insert_pos
  | l :: rest' =>
      if truthy (strip l) then insert_pos else skip_blank (S insert_pos) rest'
  end.

Definition insert_position (lines : list str) : nat :=
  match lines with
  | l0 :: _ =>
      if startswith l0 (py "# ") then skip_blank 1 (skipn 1 lines) else 0
  | [] => 0
  end.

Definition insert_or_update_toc (content toc : str) : str :=
  let lines := split NL content in
  match find_existing_toc content with
  | (Some toc_start, Some toc_end) =>
      join nl (firstn toc_start lines ++ split NL toc ++ skipn toc_end lines)
  | _ =>
      let insert_pos := insert_position lines in
      join nl (firstn insert_pos lines ++ [[]] ++ split NL toc
               ++ skipn insert_pos lines)
  end.

(** ** The tables restricted to ASCII

    On ASCII text [c.isalnum()] is [[0-9A-Za-z]] and [lower] maps [A-Z] to
    [a-z] character by character.  This instance is used to run the
    generator on ASCII documents. *)

Definition ascii_isalnum (c : char) : bool :=
  ((48 <=? c) && (c <=? 57) || (65 <=? c) && (c <=? 90)
   || (97 <=? c) && (c <=? 122))%N.

Definition ascii_lower_char (c : char) : char :=
  if ((65 <=? c) && (c <=? 90))%N then (c + 32)%N else c.

Definition ascii_lower (s : str) : str := map ascii_lower_char s.

(** ** [process_note] and [main]

    The remote service is a collaborator: its state is an abstract
    [world], and the three methods that talk to it or parse the URL are
    parameters.  A [None] result stands for a raised exception.  Printing
    is left out. *)

Inductive outcome :=
| Returned (success : bool) (message : str)
| Raised.

(** Calls made by [process_note] that the properties speak about. *)
Inductive call :=
| Splice (content toc : str)
| Update (note_id new_content base_content : str).

Section ProcessNote.

Variable isalnum : char -> bool.
Variable lower : str -> str.
Variable world : Type.
Variable extract_note_id_from_url : str -> option str.
(** the internal id and the ['content'] of the note *)
Variable get_note_content : str -> world -> option (str * str).
Variable update_note_content : str -> str -> str -> world -> option world.
(** [str(e)] of the exception raised by a failed update *)
Variable update_error : str.

Definition process_note (url : str) (depth : Z) (dry_run : bool) (w : world)
  : outcome * world * list call :=
  match extract_note_id_from_url url with
  | None => (Raised, w, [])
  | Some note_id =>
      match get_note_content note_id w with
      | None => (Raised, w, [])
      | Some (internal_id, original_content) =>
          let headings := extract_headings isalnum lower original_content depth in
          match headings with
          | [] => (Returned true (py "No headings found"), w, [])
          | _ :: _ =>
              let toc := generate_toc headings in
              let new_content := insert_or_update_toc original_content toc in
              if dry_run
              then (Returned true (py "Dry run completed"), w,
                    [Splice original_content toc])
              else
                match update_note_content internal_id new_content
                        original_content w with
                | Some w' =>
                    (Returned true (py "Note updated successfully"), w',
                     [Splice original_content toc;
                      Update internal_id new_content original_content])
                | None =>
                    (Returned false update_error, w,
                     [Splice original_content toc;
                      Update internal_id new_content original_content])
                end
          end
      end
  end.

(** The exit status of [main]. *)
Definition exit_status (o : outcome) : Z :=
  match o with
  | Returned true _ => 0
  | Returned false _ => 1
  | Raised => 1
  end.

(** The three core steps in a row, as [process_note] chains them. *)
Definition run_pipeline (content : str) (depth : Z) : str :=
  insert_or_update_toc content
    (generate_toc (extract_headings isalnum lower content depth)).

End ProcessNote.

Arguments process_note isalnum lower {world} _ _ _ _ _ _ _ _.

(** * The specification's notions

    Definitions that follow the words of the specification, to be compared
    with the code, and the predicates the properties are stated with. *)

(** ** Strings and lines *)

(** Neither end of [s] is in class [p]. *)
Definition trimmed (p : char -> bool) (s : str) : Prop :=
  (forall c r, s = c :: r -> p c = false) /\
  (forall c r, s = r ++ [c] -> p c = false).

(** A line whose trimmed text is one of the recognised headers. *)
Definition is_header_line (l : str) : bool := str_in (strip l) toc_headers.

(** A line with something else than whitespace. *)
Definition nonblank (l : str) : bool := truthy (strip l).

(** Lines, as [split] gives them: no newline inside. *)
Definition no_nl (ls : list str) : Prop := Forall (fun l => ~ In NL l) ls.

(** Number of recognised header lines. *)
Definition header_count (lines : list str) : nat :=
  length (filter is_header_line lines).

(** ** Heading extraction *)

(** The heading test in the words of the specification: the trimmed line
    is 1 to 6 [#], then at least one whitespace character, then non-empty
    text; the level is the number of leading [#], the text the trimmed
    remainder. *)
Definition spec_heading_line (l : str) : option (nat * str) :=
  let s := strip l in
  let k := span is_hash None s in
  let rest := skipn k s in
  if (1 <=? k) && (k <=? 6)
     && match rest with c :: _ => isspace c | [] => false end
     && truthy (strip rest)
  then Some (k, strip rest) else None.

Section ExtractSpecDefs.

Variable isalnum : char -> bool.
Variable lower : str -> str.

Definition spec_entry (d : Z) (nl : nat * str) : list Heading :=
  match spec_heading_line (snd nl) with
  | Some (k, t) =>
      if (Z.of_nat k <=? d)%Z
      then [mkHeading (Z.of_nat k) t (generate_anchor isalnum lower t) (fst nl)]
      else []
  | None => []
  end.

(** One entry per matching line of level at most [d], lines numbered
    from 1, in document order. *)
Definition spec_extract (D : str) (d : Z) : list Heading :=
  let lines := split NL D in
  flat_map (spec_entry d) (combine (seq 1 (length lines)) lines).

End ExtractSpecDefs.

(** A trimmed line that cannot be a heading: more than six [#], or the run
    of [#] is not followed by whitespace (another character follows, or
    nothing at all). *)
Definition not_heading (l : str) : Prop :=
  let s := strip l in
  let k := span is_hash None s in
  6 < k \/ match skipn k s with [] => True | c :: _ => isspace c = false end.

(** ** The anchor slug *)

(** One replacement per maximal run of the class, written where the run
    ends. *)
Fixpoint collapse_runs (p : char -> bool) (repl : str) (s : str) : str :=
  match s with
  | [] => []
  | c :: r =>
      if p c then
        match r with
        | [] => repl
        | c' :: _ =>
            if p c' then collapse_runs p repl r
            else repl ++ collapse_runs p repl r
        end
      else c :: collapse_runs p repl r
  end.

Definition is_hyphen (c : char) : bool := N.eqb c 45.
Definition is_marker (c : char) : bool :=
  N.eqb c 42 || N.eqb c 95 || N.eqb c 96.
Definition is_sep (c : char) : bool := isspace c || N.eqb c 95 || N.eqb c 45.

Section SlugSpecDefs.

Variable isalnum : char -> bool.
Variable lower : str -> str.

(** The five steps, in the words of the specification. *)
Definition remove_markers (s : str) : str :=
  filter (fun c => negb (is_marker c)) s.
Definition keep_slug_chars (s : str) : str :=
  filter (fun c => isword isalnum c || isspace c || is_hyphen c) s.
Definition hyphenate_runs (s : str) : str := collapse_runs is_sep (py "-") s.
Definition trim_hyphens (s : str) : str := strip_by is_hyphen s.

Definition slug_spec (s : str) : str :=
  trim_hyphens (hyphenate_runs (keep_slug_chars (lower (remove_markers s)))).

End SlugSpecDefs.

(** Every separator is a hyphen, and no two separators are adjacent. *)
Fixpoint collapsed (s : str) : bool :=
  match s with
  | [] => true
  | c :: r =>
      (if is_sep c
       then is_hyphen c
            && match r with c' :: _ => negb (is_sep c') | [] => true end
       else true)
      && collapsed r
  end.

(** The tables agree with the ASCII ones on ASCII text. *)
Definition ascii_str (s : str) : Prop := Forall (fun c => (c < 128)%N) s.

Definition ascii_tables (isalnum : char -> bool) (lower : str -> str) : Prop :=
  (forall c, (c < 128)%N -> isalnum c = ascii_isalnum c)
  /\ (forall s, ascii_str s -> lower s = ascii_lower s).

(** ** The rendered block *)

(** An entry in the words of the specification: [(level - 1) * 2] spaces,
    then [- [text](#anchor)]. *)
Definition spec_toc_line (h : Heading) : str :=
  repeat 32%N (Z.to_nat ((level h - 1) * 2))
  ++ py "- [" ++ text h ++ py "](#" ++ anchor h ++ py ")".

(** Entries of headings taken from lines hold no newline. *)
Definition clean (h : Heading) : Prop :=
  ~ In NL (text h) /\ ~ In NL (anchor h).

(** The document and the two renderings of the example. *)
Definition example_doc : str :=
  join nl [py "# Title"; []; py "## Intro"; py "## Details"; py "### Sub"; []].

Definition example_toc_claimed : str :=
  join nl [toc_header; []; py "- [Intro](#intro)"; py "- [Details](#details)";
           py "  - [Sub](#sub)"; []].

Definition example_toc : str :=
  join nl [toc_header; []; py "- [Title](#title)"; py "  - [Intro](#intro)";
           py "  - [Details](#details)"; py "    - [Sub](#sub)"; []].

(** ** The splicer and the locator *)

(** The lines of the result of the insertion branch. *)
Definition inserted_lines (lines : list str) (toc : str) : list str :=
  firstn (insert_position lines) lines ++ [[]] ++ split NL toc
  ++ skipn (insert_position lines) lines.

(** The lines of the result of the replacement branch. *)
Definition replaced_lines (lines : list str) (s e : nat) (toc : str)
  : list str :=
  firstn s lines ++ split NL toc ++ skipn e lines.

(** The look-back of the specification: from just before line [j] to the
    last non-blank line, the header line at [i] included. *)
Definition spec_look_back (lines : list str) (i j : nat) : option nat :=
  look_back lines (j - 1) (j - i).

(** The forward scan in the words of the specification: as [scan_end],
    with the look-back of the specification. *)
Fixpoint spec_scan_end (lines : list str) (i j : nat) (rest : list str)
  : option nat :=
  match rest with
  | [] => None
  | l :: rest' =>
      let next_line := strip l in
      if matches h12_re false next_line
         && negb (startswith next_line (py "###"))
      then Some j
      else if (i + 1 <? j) && truthy next_line
              && negb (startswith next_line (py "-"))
              && negb (startswith next_line (py "  -"))
      then spec_look_back lines i j
      else spec_scan_end lines i (S j) rest'
  end.

Definition spec_toc_end_from (lines : list str) (i : nat) : option nat :=
  match spec_scan_end lines i (i + 1) (skipn (i + 1) lines) with
  | Some e => Some e
  | None => look_back lines (length lines - 1) (length lines - 1 - i)
  end.

(** ["# T\ntext"]: a title followed by content. *)
Definition growing_doc : str := join nl [py "# T"; py "text"].

(** ["## TOC\n\ntext\nmore"]: a header, a blank line, content. *)
Definition swallowed_doc : str :=
  join nl [py "## TOC"; []; py "text"; py "more"].

(** ** A remote for examples *)

(** A remote that serves one note and accepts every update. *)
Definition demo_world : Type := str.
Definition demo_note_id (url : str) : option str := Some url.
Definition demo_get (note_id : str) (w : demo_world) : option (str * str) :=
  Some (note_id, w).
Definition demo_update (note_id new_content base_content : str)
    (w : demo_world) : option demo_world :=
  if str_eqb base_content w then Some new_content else None.

(** ** Notions for the further properties *)

(** The entry with its source line moved down by [n] lines. *)
Definition shift_line (n : nat) (h : Heading) : Heading :=
  mkHeading (level h) (text h) (anchor h) (line h + n).

(** A line at which the forward scan of the locator stops with its first
    test: a level-1 or level-2 heading. *)
Definition is_boundary (l : str) : bool :=
  matches h12_re false (strip l) && negb (startswith (strip l) (py "###")).

(** A line whose trimmed text starts with [-]. *)
Definition is_list_item (l : str) : bool := startswith (strip l) (py "-").

(** The lines of a rendered block. *)
Definition toc_lines (hs : list Heading) : list str :=
  toc_header :: [] :: map toc_entry hs ++ [[]].

(** The lines of the document that the splicer keeps in front of the
    spliced text and behind it. *)
Definition kept_before (content : str) : list str :=
  let lines := split NL content in
  match find_existing_toc content with
  | (Some toc_start, Some _) => firstn toc_start lines
  | _ => firstn (insert_position lines) lines ++ [[]]
  end.

Definition kept_after (content : str) : list str :=
  let lines := split NL content in
  match find_existing_toc content with
  | (Some _, Some toc_end) => skipn toc_end lines
  | _ => skipn (insert_position lines) lines
  end.

(** The content that a run of [process_note] means to store: the spliced
    document, or the document as it is when there is no heading (nothing is
    sent then). *)
Definition next_content (isalnum : char -> bool) (lower : str -> str)
    (content : str) (depth : Z) : str :=
  match extract_headings isalnum lower content depth with
  | [] => content
  | _ :: _ =>
      insert_or_update_toc content
        (generate_toc (extract_headings isalnum lower content depth))
  end.

(** ** [extract_note_id_from_url] *)

(** [sub in s] on strings *)
Fixpoint contains (s sub : str) : bool :=
  startswith s sub
  || match s with
     | [] => false
     | _ :: r => contains r sub
     end.

(** [s.split(sep)] for a separator of one character or more: the pieces
    between the occurrences of [sep], which are looked for from left to
    right and do not overlap.  [skip] counts the characters of the current
    occurrence still to be passed; [cur] is the piece being read, in
    reverse. *)
Fixpoint split_str_go (sep : str) (skip : nat) (cur : str) (s : str)
  : list str :=
  match s with
  | [] => [rev cur]
  | c :: r =>
      match skip with
      | S k => split_str_go sep k cur r
      | 0 =>
          if startswith s sep
          then rev cur :: split_str_go sep (length sep - 1) [] r
          else split_str_go sep 0 (c :: cur) r
      end
  end.

Definition split_str (sep : str) (s : str) : list str :=
  split_str_go sep 0 [] s.

Section UrlParsing.

(** [urlparse(url).path] and the per-character test of [str.isdigit()]
    belong to the Python library and its Unicode tables: parameters. *)
Variable url_path : str -> str.
Variable isdigit_char : char -> bool.

(** [s.isdigit()]: at least one character, all of them digits. *)
Definition str_isdigit (s : str) : bool := truthy s && forallb isdigit_char s.

(** [None] stands for the [ValueError] raised. *)
Definition extract_note_id_from_url (url : str) : option str :=
  let path := url_path url in
  let found :=
    if contains path (py "/notes/")
    then Some (last (split_str (py "/notes/") path) [])
    else if contains path (py "/shared/")
    then Some (last (split_str (py "/notes/") path) [])
    else None in
  match found with
  | None => None
  | Some note_id =>
      let note_id := hd [] (split 63%N (hd [] (split 47%N note_id))) in
      if str_isdigit note_id then Some note_id else None
  end.

End UrlParsing.

(** The digits of ASCII. *)
Definition ascii_isdigit (c : char) : bool := ((48 <=? c) && (c <=? 57))%N.

(** The calls of [update_note_content] among the calls made. *)
Definition is_update (c : call) : bool :=
  match c with
  | Update _ _ _ => true
  | Splice _ _ => false
  end.

(** A content line: not blank, no list item, no level-1 or level-2
    heading. *)
Definition is_content (l : str) : bool :=
  nonblank l && negb (is_list_item l) && negb (is_boundary l).

(** The rendered entries of the headings of some lines. *)
Definition entries_of (isalnum : char -> bool) (lower : str -> str)
    (d : Z) (n : nat) (ls : list str) : list str :=
  map toc_entry (extract_loop isalnum lower d n ls).

(** * Properties *)

(** ** Strings: equality, split and join *)

Lemma str_eqb_eq (a b : str) : str_eqb a b = true <-> a = b.
Proof.
  revert b; induction a as [|x a IH]; intros [|y b]; simpl; split;
    try congruence; try reflexivity.
  - intros H. apply andb_true_iff in H as [H1 H2].
    apply N.eqb_eq in H1. apply IH in H2. congruence.
  - intros H. injection H as -> ->. rewrite N.eqb_refl. simpl.
    apply IH. reflexivity.
Qed.

Lemma str_eqb_refl (a : str) : str_eqb a a = true.
Proof. apply str_eqb_eq. reflexivity. Qed.

Lemma str_in_In (x : str) (xs : list str) : str_in x xs = true <-> In x xs.
Proof.
  unfold str_in. rewrite existsb_exists. split.
  - intros [y [Hy He]]. apply str_eqb_eq in He. subst. exact Hy.
  - intros H. exists x. split; [exact H | apply str_eqb_refl].
Qed.

Lemma split_cons_shape (sep : char) (s : str) :
  exists l ls, split sep s = l :: ls.
Proof.
  induction s as [|c r [l [ls IH]]]; simpl.
  - eauto.
  - destruct (N.eqb c sep); [eauto|]. rewrite IH. eauto.
Qed.

Lemma split_not_nil (sep : char) (s : str) : split sep s <> [].
Proof. destruct (split_cons_shape sep s) as [l [ls H]]. congruence. Qed.

Lemma split_length_pos (sep : char) (s : str) : 0 < length (split sep s).
Proof.
  destruct (split_cons_shape sep s) as [l [ls H]]. rewrite H. simpl. lia.
Qed.

(** No piece of a split holds the separator. *)
Lemma split_no_sep (sep : char) (s : str) :
  Forall (fun l => ~ In sep l) (split sep s).
Proof.
  induction s as [|c r IH]; simpl.
  - constructor; [intros [] | constructor].
  - destruct (N.eqb c sep) eqn:E.
    + constructor; [intros [] | exact IH].
    + destruct (split sep r) as [|l ls]; [repeat constructor|].
      * intros [H|[]]. subst. rewrite N.eqb_refl in E. discriminate.
      * inversion IH as [|? ? Hl Hls]; subst. constructor; [|exact Hls].
        intros [H|H]; [|exact (Hl H)].
        subst. rewrite N.eqb_refl in E. discriminate.
Qed.

Lemma join_cons (sep l : str) (ls : list str) :
  ls <> [] -> join sep (l :: ls) = l ++ sep ++ join sep ls.
Proof. destruct ls; [congruence | reflexivity]. Qed.

Lemma join_split (sep : char) (s : str) : join [sep] (split sep s) = s.
Proof.
  induction s as [|c r IH]; simpl; [reflexivity|].
  destruct (N.eqb c sep) eqn:E.
  - apply N.eqb_eq in E. subst c.
    destruct (split_cons_shape sep r) as [l [ls H]]. rewrite H in *.
    simpl in *. rewrite IH. reflexivity.
  - destruct (split_cons_shape sep r) as [l [ls H]]. rewrite H in *.
    destruct ls as [|l' ls]; simpl in *; rewrite <- IH; reflexivity.
Qed.

Lemma split_app_no_sep (sep : char) (l r : str) :
  ~ In sep l -> split sep (l ++ sep :: r) = l :: split sep r.
Proof.
  induction l as [|c l IH]; intros Hl; simpl.
  - rewrite N.eqb_refl. reflexivity.
  - destruct (N.eqb c sep) eqn:E.
    + apply N.eqb_eq in E. subst. exfalso. apply Hl. left. reflexivity.
    + rewrite IH; [reflexivity|]. intros H. apply Hl. right. exact H.
Qed.

Lemma split_no_sep_single (sep : char) (l : str) :
  ~ In sep l -> split sep l = [l].
Proof.
  induction l as [|c l IH]; intros Hl; simpl; [reflexivity|].
  destruct (N.eqb c sep) eqn:E.
  - apply N.eqb_eq in E. subst. exfalso. apply Hl. left. reflexivity.
  - rewrite IH; [reflexivity|]. intros H. apply Hl. right. exact H.
Qed.

(** Joining lines and splitting again gives the lines back. *)
Lemma split_join (sep : char) (ls : list str) :
  ls <> [] -> Forall (fun l => ~ In sep l) ls ->
  split sep (join [sep] ls) = ls.
Proof.
  induction ls as [|l ls IH]; intros Hne Hall; [congruence|].
  inversion Hall as [|? ? Hl Hls]; subst.
  destruct ls as [|l' ls].
  - simpl. apply split_no_sep_single. exact Hl.
  - rewrite join_cons by congruence.
    change (l ++ [sep] ++ join [sep] (l' :: ls))
      with (l ++ sep :: join [sep] (l' :: ls)).
    rewrite split_app_no_sep by exact Hl.
    f_equal. apply IH; [congruence | exact Hls].
Qed.

(** ** Strings: stripping *)

Lemma dropwhile_head (p : char -> bool) (s : str) (c : char) (r : str) :
  dropwhile p s = c :: r -> p c = false.
Proof.
  induction s as [|x s IH]; simpl; [discriminate|].
  destruct (p x) eqn:E; [exact IH|]. intros H. injection H as -> _. exact E.
Qed.

Lemma dropwhile_split (p : char -> bool) (s : str) :
  exists pre, s = pre ++ dropwhile p s /\ forallb p pre = true.
Proof.
  induction s as [|x s [pre [H1 H2]]]; simpl.
  - exists []. split; reflexivity.
  - destruct (p x) eqn:E.
    + exists (x :: pre). simpl. rewrite E, H2. split; [congruence | reflexivity].
    + exists []. split; reflexivity.
Qed.

Lemma dropwhile_all (p : char -> bool) (s : str) :
  forallb p s = true -> dropwhile p s = [].
Proof.
  induction s as [|x s IH]; simpl; [reflexivity|].
  intros H. apply andb_true_iff in H as [H1 H2]. rewrite H1. apply IH, H2.
Qed.

Lemma rstrip_by_nil (p : char -> bool) : rstrip_by p [] = [].
Proof. reflexivity. Qed.

Lemma rstrip_by_snoc (p : char -> bool) (s : str) (c : char) :
  rstrip_by p (s ++ [c]) = if p c then rstrip_by p s else s ++ [c].
Proof.
  unfold rstrip_by. rewrite rev_app_distr. simpl.
  destruct (p c); [reflexivity|]. simpl. rewrite rev_involutive. reflexivity.
Qed.

Lemma rstrip_by_split (p : char -> bool) (s : str) :
  exists post, s = rstrip_by p s ++ post /\ forallb p post = true.
Proof.
  induction s as [|c s [post [H1 H2]]] using rev_ind.
  - exists []. split; reflexivity.
  - rewrite rstrip_by_snoc. destruct (p c) eqn:E.
    + exists (post ++ [c]). split.
      * rewrite app_assoc, <- H1. reflexivity.
      * rewrite forallb_app, H2. simpl. rewrite E. reflexivity.
    + exists []. split; [rewrite app_nil_r; reflexivity | reflexivity].
Qed.

Lemma rstrip_by_last (p : char -> bool) (s r : str) (c : char) :
  rstrip_by p s = r ++ [c] -> p c = false.
Proof.
  induction s as [|x s IH] using rev_ind.
  - rewrite rstrip_by_nil. destruct r; discriminate.
  - rewrite rstrip_by_snoc. destruct (p x) eqn:E; [exact IH|].
    intros H. apply app_inj_tail in H as [_ ->]. exact E.
Qed.

Lemma rstrip_by_cons (p : char -> bool) (c : char) (s : str) :
  rstrip_by p (c :: s) =
  match rstrip_by p s with
  | [] => if p c then [] else [c]
  | x :: t => c :: x :: t
  end.
Proof.
  induction s as [|d s IH] using rev_ind.
  - change [c] with ([] ++ [c]). rewrite rstrip_by_snoc. reflexivity.
  - change (c :: s ++ [d]) with ((c :: s) ++ [d]).
    rewrite !rstrip_by_snoc. destruct (p d); [exact IH|].
    destruct s; reflexivity.
Qed.

Lemma rstrip_by_head (p : char -> bool) (c : char) (s : str) :
  p c = false -> exists t, rstrip_by p (c :: s) = c :: t.
Proof.
  intros H. rewrite rstrip_by_cons, H. destruct (rstrip_by p s); eauto.
Qed.

Lemma rstrip_by_all (p : char -> bool) (s : str) :
  forallb p s = true -> rstrip_by p s = [].
Proof.
  intros H. unfold rstrip_by. rewrite dropwhile_all; [reflexivity|].
  rewrite forallb_forall in *. intros x Hx. apply H, in_rev, Hx.
Qed.

Lemma strip_by_trimmed (p : char -> bool) (s : str) :
  trimmed p (strip_by p s).
Proof.
  unfold strip_by, lstrip_by. split.
  - intros c r H. destruct (dropwhile p s) as [|x t] eqn:E.
    + rewrite rstrip_by_nil in H. discriminate.
    + pose proof (dropwhile_head p s x t E) as Hx.
      destruct (rstrip_by_head p x t Hx) as [t' Ht]. rewrite Ht in H.
      injection H as -> _. exact Hx.
  - intros c r H. exact (rstrip_by_last p _ _ _ H).
Qed.

Lemma trimmed_strip_by (p : char -> bool) (s : str) :
  trimmed p s -> strip_by p s = s.
Proof.
  intros [Hh Hl]. unfold strip_by, lstrip_by.
  assert (dropwhile p s = s) as ->.
  { destruct s as [|c r]; [reflexivity|]. simpl.
    rewrite (Hh c r eq_refl). reflexivity. }
  revert Hl. clear Hh.
  induction s as [|c r _] using rev_ind; intros Hl; [reflexivity|].
  rewrite rstrip_by_snoc, (Hl c r eq_refl). reflexivity.
Qed.

Lemma strip_by_idem (p : char -> bool) (s : str) :
  strip_by p (strip_by p s) = strip_by p s.
Proof. apply trimmed_strip_by, strip_by_trimmed. Qed.

(** A stripped string is the original without a prefix and a suffix of
    characters of the class. *)
Lemma strip_by_split (p : char -> bool) (s : str) :
  exists pre post, s = pre ++ strip_by p s ++ post
                   /\ forallb p pre = true /\ forallb p post = true.
Proof.
  destruct (dropwhile_split p s) as [pre [H1 H2]].
  destruct (rstrip_by_split p (dropwhile p s)) as [post [H3 H4]].
  exists pre, post. unfold strip_by, lstrip_by.
  rewrite <- H3. auto.
Qed.

Lemma strip_by_In (p : char -> bool) (s : str) (c : char) :
  In c (strip_by p s) -> In c s.
Proof.
  destruct (strip_by_split p s) as [pre [post [H _]]]. intros Hc.
  rewrite H. apply in_or_app. right. apply in_or_app. left. exact Hc.
Qed.

Lemma strip_by_all (p : char -> bool) (s : str) :
  forallb p s = true -> strip_by p s = [].
Proof.
  intros H. unfold strip_by, lstrip_by. rewrite dropwhile_all by exact H.
  reflexivity.
Qed.

Lemma strip_by_nil_all (p : char -> bool) (s : str) :
  strip_by p s = [] -> forallb p s = true.
Proof.
  intros H. destruct (strip_by_split p s) as [pre [post [E [H1 H2]]]].
  rewrite H in E. rewrite E. simpl. rewrite forallb_app, H1, H2. reflexivity.
Qed.

(** A string that starts and ends outside the class is left alone. *)
Lemma strip_by_keep (p : char -> bool) (c d : char) (m : str) :
  p c = false -> p d = false -> strip_by p (c :: m ++ [d]) = c :: m ++ [d].
Proof.
  intros Hc Hd. apply trimmed_strip_by. split.
  - intros x r H. injection H as <- _. exact Hc.
  - intros x r H. change (c :: m ++ [d]) with ((c :: m) ++ [d]) in H.
    apply app_inj_tail in H as [_ <-]. exact Hd.
Qed.

(** ** The matcher *)

Lemma try_down_unfold (k lo : nat) (s : str) (cont : str -> option (list str)) :
  try_down k lo s cont =
  if k <? lo then None
  else match cont (skipn k s) with
       | Some gs => Some (firstn k s :: gs)
       | None => match k with
                 | 0 => None
                 | S k' => try_down k' lo s cont
                 end
       end.
Proof. destruct k; reflexivity. Qed.

Lemma try_down_none (k lo : nat) (s : str) (cont : str -> option (list str)) :
  (forall k', lo <= k' <= k -> cont (skipn k' s) = None) ->
  try_down k lo s cont = None.
Proof.
  induction k as [|k IH]; intros H; rewrite try_down_unfold.
  - destruct (0 <? lo) eqn:E; [reflexivity|]. apply Nat.ltb_ge in E.
    rewrite H by lia. reflexivity.
  - destruct (S k <? lo) eqn:E; [reflexivity|]. apply Nat.ltb_ge in E.
    rewrite H by lia. apply IH. intros k' Hk. apply H. lia.
Qed.

Lemma try_down_hit (k lo : nat) (s : str) (cont : str -> option (list str))
      (gs : list str) :
  lo <= k -> cont (skipn k s) = Some gs ->
  try_down k lo s cont = Some (firstn k s :: gs).
Proof.
  intros Hk Hc. rewrite try_down_unfold.
  destruct (k <? lo) eqn:E; [apply Nat.ltb_lt in E; lia|].
  rewrite Hc. reflexivity.
Qed.

Lemma span_none_cons (p : char -> bool) (c : char) (r : str) :
  span p None (c :: r) = if p c then S (span p None r) else 0.
Proof. reflexivity. Qed.

Lemma span_cap (p : char -> bool) (n : nat) (s : str) :
  span p (Some n) s = Nat.min n (span p None s).
Proof.
  revert n; induction s as [|c r IH]; intros [|n]; simpl; try reflexivity.
  destruct (p c); [|reflexivity]. rewrite IH. reflexivity.
Qed.

Lemma span_le_length (p : char -> bool) (s : str) :
  span p None s <= length s.
Proof.
  induction s as [|c r IH]; simpl; [lia|]. destruct (p c); lia.
Qed.

Lemma span_firstn (p : char -> bool) (s : str) :
  forallb p (firstn (span p None s) s) = true.
Proof.
  induction s as [|c r IH]; simpl; [reflexivity|].
  destruct (p c) eqn:E; simpl; [rewrite E; exact IH | reflexivity].
Qed.

Lemma span_stop (p : char -> bool) (s : str) (c : char) (r : str) :
  skipn (span p None s) s = c :: r -> p c = false.
Proof.
  induction s as [|x s IH]; simpl; [discriminate|].
  destruct (p x) eqn:E; simpl; [exact IH|].
  intros H. injection H as -> _. exact E.
Qed.

Lemma span_inside (p : char -> bool) (s : str) (k : nat) :
  k < span p None s -> exists c r, skipn k s = c :: r /\ p c = true.
Proof.
  revert k; induction s as [|x s IH]; simpl; intros k Hk; [lia|].
  destruct (p x) eqn:E; [|lia].
  destruct k as [|k]; simpl; [eauto|]. apply IH. lia.
Qed.

Lemma span_all (p : char -> bool) (s : str) :
  forallb p s = true -> span p None s = length s.
Proof.
  induction s as [|c r IH]; simpl; [reflexivity|].
  intros H. apply andb_true_iff in H as [-> H]. rewrite IH by exact H.
  reflexivity.
Qed.

Lemma span_zero (p : char -> bool) (c : char) (r : str) :
  p c = false -> span p None (c :: r) = 0.
Proof. intros H. simpl. rewrite H. reflexivity. Qed.

Lemma no_nl_dot (s : str) : ~ In NL s -> forallb dot s = true.
Proof.
  intros H. apply forallb_forall. intros c Hc. unfold dot.
  destruct (N.eqb c NL) eqn:E; [|reflexivity].
  apply N.eqb_eq in E. subst. contradiction.
Qed.

(** [(.+)$] on text without a newline takes all of it. *)
Lemma match_dot_plus (r : str) :
  r <> [] -> ~ In NL r -> re_match [Item dot 1 None] true r = Some [r].
Proof.
  intros Hne Hnl. simpl.
  rewrite (span_all dot r (no_nl_dot r Hnl)).
  rewrite (try_down_hit (length r) 1 r _ []).
  - rewrite firstn_all. reflexivity.
  - destruct r; [congruence | simpl; lia].
  - rewrite skipn_all. reflexivity.
Qed.

(** [\s+(.+)$]: the whitespace run, then the rest. *)
Lemma match_ws_text_hit (r : str) :
  ~ In NL r -> 1 <= span isspace None r ->
  skipn (span isspace None r) r <> [] ->
  re_match [Item isspace 1 None; Item dot 1 None] true r
  = Some [firstn (span isspace None r) r; skipn (span isspace None r) r].
Proof.
  intros Hnl Hm Hrest.
  change (re_match [Item isspace 1 None; Item dot 1 None] true r)
    with (try_down (span isspace None r) 1 r
            (re_match [Item dot 1 None] true)).
  apply try_down_hit; [exact Hm|].
  apply match_dot_plus; [exact Hrest|].
  intros H. apply Hnl. rewrite <- (firstn_skipn (span isspace None r) r).
  apply in_or_app. right. exact H.
Qed.

Lemma match_ws_text_miss (r : str) :
  span isspace None r = 0 ->
  re_match [Item isspace 1 None; Item dot 1 None] true r = None.
Proof.
  intros Hm.
  change (re_match [Item isspace 1 None; Item dot 1 None] true r)
    with (try_down (span isspace None r) 1 r
            (re_match [Item dot 1 None] true)).
  rewrite Hm. reflexivity.
Qed.

Lemma trimmed_tail_not_space (s : str) (k : nat) :
  trimmed isspace s ->
  1 <= span isspace None (skipn k s) ->
  skipn (span isspace None (skipn k s)) (skipn k s) <> [].
Proof.
  intros [_ Hl] Hm Hnil.
  set (r := skipn k s) in *. set (m := span isspace None r) in *.
  assert (Hr : r = firstn m r).
  { rewrite <- (firstn_skipn m r) at 1. rewrite Hnil. apply app_nil_r. }
  assert (Hall : forallb isspace r = true).
  { rewrite Hr. apply span_firstn. }
  assert (Hne : r <> []).
  { intros E. unfold m in Hm. rewrite E in Hm. simpl in Hm. lia. }
  destruct (exists_last Hne) as [r' [c Hc]].
  rewrite Hc, forallb_app in Hall. simpl in Hall.
  apply andb_true_iff in Hall as [_ Hsp].
  apply andb_true_iff in Hsp as [Hsp _].
  rewrite (Hl c (firstn k s ++ r')) in Hsp; [discriminate|].
  rewrite <- app_assoc, <- Hc. unfold r. symmetry. apply firstn_skipn.
Qed.

Lemma is_hash_not_space (c : char) : is_hash c = true -> isspace c = false.
Proof. unfold is_hash. intros H. apply N.eqb_eq in H. subst. reflexivity. Qed.

(** The heading pattern on a stripped line: the run of [#] must be 1 to 6
    long and be followed by whitespace; giving back [#]s never helps. *)
Lemma heading_re_match (s : str) :
  trimmed isspace s -> ~ In NL s ->
  let k := span is_hash None s in
  let r := skipn k s in
  let m := span isspace None r in
  re_match heading_re true s =
  if (1 <=? k) && (k <=? 6) && (1 <=? m)
  then Some [firstn k s; firstn m r; skipn m r] else None.
Proof.
  intros Htr Hnl k r m.
  change (re_match heading_re true s)
    with (try_down (span is_hash (Some 6) s) 1 s
            (re_match [Item isspace 1 None; Item dot 1 None] true)).
  rewrite span_cap. fold k.
  destruct ((1 <=? k) && (k <=? 6) && (1 <=? m)) eqn:E.
  - apply andb_true_iff in E as [E Hm]. apply andb_true_iff in E as [H1 H6].
    apply Nat.leb_le in Hm, H1, H6.
    rewrite Nat.min_r by exact H6.
    apply try_down_hit; [exact H1|]. fold r.
    apply match_ws_text_hit.
    + intros H. apply Hnl. rewrite <- (firstn_skipn k s).
      apply in_or_app. right. exact H.
    + exact Hm.
    + apply trimmed_tail_not_space; assumption.
  - apply try_down_none. intros k' Hk'.
    apply match_ws_text_miss.
    destruct (Nat.lt_ge_cases k' k) as [Hlt|Hge].
    + destruct (span_inside is_hash s k' Hlt) as [c [t [Hs Hc]]].
      rewrite Hs. apply span_zero, is_hash_not_space, Hc.
    + assert (k' = k) as -> by lia. fold r. fold m.
      assert (H1 : (1 <=? k) = true) by (apply Nat.leb_le; lia).
      assert (H6 : (k <=? 6) = true) by (apply Nat.leb_le; lia).
      rewrite H1, H6, !andb_true_l in E. apply Nat.leb_gt in E. lia.
Qed.

Lemma dropwhile_span (p : char -> bool) (s : str) :
  dropwhile p s = skipn (span p None s) s.
Proof.
  induction s as [|c r IH]; simpl; [reflexivity|].
  destruct (p c); [exact IH | reflexivity].
Qed.

Lemma strip_by_skip_span (p : char -> bool) (s : str) :
  strip_by p (skipn (span p None s) s) = strip_by p s.
Proof.
  unfold strip_by, lstrip_by. rewrite <- dropwhile_span.
  f_equal. destruct (dropwhile p s) as [|c r] eqn:E; [reflexivity|].
  simpl. rewrite (dropwhile_head p s c r E). reflexivity.
Qed.

(** ** Heading extraction (C2) *)

Section ExtractSpec.

Variable isalnum : char -> bool.
Variable lower : str -> str.

Lemma heading_of_line_spec (d : Z) (n : nat) (l : str) :
  ~ In NL l ->
  heading_of_line isalnum lower d n l = spec_entry isalnum lower d (n, l).
Proof.
  intros Hnl. unfold heading_of_line, spec_entry, spec_heading_line. simpl snd.
  assert (Htr : trimmed isspace (strip l)) by apply strip_by_trimmed.
  assert (Hnl' : ~ In NL (strip l)).
  { intros H. apply Hnl. exact (strip_by_In isspace l NL H). }
  rewrite (heading_re_match (strip l) Htr Hnl'). cbv zeta.
  set (s := strip l) in *. set (k := span is_hash None s).
  set (r := skipn k s). set (m := span isspace None r).
  destruct ((1 <=? k) && (k <=? 6)) eqn:E; [|reflexivity].
  rewrite !andb_true_l.
  destruct (1 <=? m) eqn:Em.
  - apply Nat.leb_le in Em.
    destruct (span_inside isspace r 0 ltac:(fold m; lia)) as [c [t [Hr Hc]]].
    simpl in Hr. rewrite Hr, Hc. rewrite <- Hr.
    assert (Hst : strip (skipn m r) = strip r).
    { unfold strip, m. apply strip_by_skip_span. }
    rewrite <- Hst.
    assert (Hne : truthy (strip (skipn m r)) = true).
    { destruct (strip (skipn m r)) eqn:Es; [|reflexivity]. exfalso.
      apply strip_by_nil_all in Es.
      pose proof (trimmed_tail_not_space s k Htr) as Hx.
      fold r in Hx. fold m in Hx. specialize (Hx Em).
      destruct (skipn m r) as [|x y] eqn:Ey; [congruence|].
      pose proof (span_stop isspace r x y Ey) as Hsx.
      simpl in Es. rewrite Hsx in Es. discriminate. }
    rewrite Hne. simpl.
    assert (Hlen : length (firstn k s) = k).
    { apply firstn_length_le. apply span_le_length. }
    rewrite Hlen. reflexivity.
  - apply Nat.leb_gt in Em. assert (m = 0) as Hm by lia.
    destruct r as [|c t] eqn:Hr; [reflexivity|].
    unfold m in Hm. simpl in Hm.
    destruct (isspace c); [discriminate | reflexivity].
Qed.

Lemma extract_loop_spec (d : Z) (lines : list str) (n : nat) :
  Forall (fun l => ~ In NL l) lines ->
  extract_loop isalnum lower d n lines
  = flat_map (spec_entry isalnum lower d) (combine (seq n (length lines)) lines).
Proof.
  revert n; induction lines as [|l lines IH]; intros n H; [reflexivity|].
  inversion H as [|? ? Hl Hls]; subst. simpl.
  rewrite heading_of_line_spec by exact Hl. rewrite IH by exact Hls.
  reflexivity.
Qed.

Lemma spec_entry_facts (d : Z) (n : nat) (l : str) (h : Heading) :
  In h (spec_entry isalnum lower d (n, l)) ->
  line h = n /\ (1 <= level h <= 6)%Z /\ (level h <= d)%Z.
Proof.
  unfold spec_entry, spec_heading_line. simpl snd. simpl fst.
  set (s := strip l). set (k := span is_hash None s).
  destruct ((1 <=? k) && (k <=? 6)) eqn:E; [|simpl; intros []].
  rewrite !andb_true_l.
  apply andb_true_iff in E as [H1 H6]. apply Nat.leb_le in H1, H6.
  destruct (_ && _); [|simpl; intros []].
  destruct (Z.of_nat k <=? d)%Z eqn:Ed; [|simpl; intros []].
  intros [<-|[]]. simpl. apply Z.leb_le in Ed. lia.
Qed.

Lemma spec_entry_shape (d : Z) (nl : nat * str) :
  spec_entry isalnum lower d nl = [] \/ exists h, spec_entry isalnum lower d nl = [h].
Proof.
  unfold spec_entry. destruct (spec_heading_line (snd nl)) as [[k t]|];
    [|left; reflexivity].
  destruct (Z.of_nat k <=? d)%Z; [right; eauto | left; reflexivity].
Qed.

Lemma spec_lines_sorted (d : Z) (ls : list str) (a : nat) :
  let hs := flat_map (spec_entry isalnum lower d) (combine (seq a (length ls)) ls) in
  StronglySorted lt (map line hs)
  /\ Forall (fun h => a <= line h < a + length ls) hs.
Proof.
  revert a; induction ls as [|l ls IH]; intros a; simpl.
  - split; constructor.
  - destruct (IH (S a)) as [IHs IHb].
    assert (Hb : Forall (fun h => a <= line h < a + S (length ls))
                   (flat_map (spec_entry isalnum lower d)
                      (combine (seq (S a) (length ls)) ls))).
    { eapply Forall_impl; [|exact IHb]. simpl. intros h Hh. lia. }
    destruct (spec_entry_shape d (a, l)) as [E|[h E]]; rewrite E; simpl.
    + split; assumption.
    + assert (Hh : line h = a).
      { apply (spec_entry_facts d a l h). rewrite E. left. reflexivity. }
      split.
      * constructor; [exact IHs|]. rewrite Hh. apply Forall_map.
        eapply Forall_impl; [|exact IHb]. simpl. intros h' Hh'. lia.
      * constructor; [lia | exact Hb].
Qed.

Lemma In_combine_seq (ls : list str) (a n : nat) (l : str) :
  In (n, l) (combine (seq a (length ls)) ls) ->
  a <= n /\ nth_error ls (n - a) = Some l.
Proof.
  revert a; induction ls as [|x ls IH]; intros a; simpl; [intros []|].
  intros [H|H].
  - injection H as <- <-. rewrite Nat.sub_diag. split; [lia | reflexivity].
  - apply IH in H as [H1 H2]. split; [lia|].
    replace (n - a) with (S (n - S a)) by lia. exact H2.
Qed.

End ExtractSpec.

Lemma not_heading_None (l : str) :
  not_heading l -> spec_heading_line l = None.
Proof.
  unfold not_heading, spec_heading_line. cbv zeta.
  set (s := strip l). set (k := span is_hash None s).
  intros [H|H].
  - assert ((k <=? 6) = false) as -> by (apply Nat.leb_gt; exact H).
    rewrite andb_false_r. reflexivity.
  - destruct (skipn k s) as [|c r].
    + rewrite andb_false_r. reflexivity.
    + rewrite H, andb_false_r. reflexivity.
Qed.

(** C2. [extract_headings D d] is the list of the specification: one entry
    for each line whose trimmed text is 1 to 6 [#], whitespace, non-empty
    text, kept when its level (the number of leading [#]) is at most [d];
    source lines are 1-based and strictly increasing, so the entries are
    in document order; a line with more than six [#], with [#] not
    followed by whitespace, or without text yields no entry. *)
Theorem extract_headings_spec
    (isalnum : char -> bool) (lower : str -> str) (D : str) (d : Z) :
  let hs := extract_headings isalnum lower D d in
  hs = spec_extract isalnum lower D d
  /\ StronglySorted lt (map line hs)
  /\ Forall (fun h => (1 <= level h <= 6)%Z /\ (level h <= d)%Z
                      /\ 1 <= line h <= length (split NL D)) hs
  /\ (forall n l, nth_error (split NL D) n = Some l -> not_heading l ->
      forall h, In h hs -> line h <> S n).
Proof.
  intros hs.
  assert (E : hs = spec_extract isalnum lower D d).
  { unfold hs, extract_headings, spec_extract.
    apply extract_loop_spec, split_no_sep. }
  split; [exact E|]. rewrite E. unfold spec_extract. cbv zeta.
  destruct (spec_lines_sorted isalnum lower d (split NL D) 1) as [Hs Hb].
  split; [exact Hs|]. split.
  - apply Forall_forall. intros h Hh.
    pose proof (proj1 (Forall_forall _ _) Hb h Hh) as Hl. simpl in Hl.
    apply in_flat_map in Hh as [[n l] [_ Hin]].
    apply spec_entry_facts in Hin as [_ [H1 H2]]. repeat split; lia.
  - intros n l Hn Hnot h Hh Hline.
    apply in_flat_map in Hh as [[n' l'] [Hc Hin]].
    pose proof (spec_entry_facts isalnum lower d n' l' h Hin) as [Hn' _].
    apply In_combine_seq in Hc as [_ Hc].
    assert (n' - 1 = n) as En by lia. rewrite En, Hn in Hc.
    injection Hc as <-.
    unfold spec_entry in Hin. simpl snd in Hin.
    rewrite (not_heading_None l Hnot) in Hin. exact Hin.
Qed.

(** ** Substitution of single-class patterns *)

Lemma re_match_one (p : char -> bool) (lo : nat) (hi : option nat) (s : str) :
  re_match [Item p lo hi] false s =
  if span p hi s <? lo then None else Some [firstn (span p hi s) s].
Proof.
  simpl. rewrite try_down_unfold. reflexivity.
Qed.

Lemma re_sub_go_skip (its : list item) (repl : str) (k : nat) (s : str) :
  re_sub_go its repl k s = re_sub_go its repl 0 (skipn k s).
Proof.
  revert s; induction k as [|k IH]; intros s; [reflexivity|].
  destruct s as [|c r]; [reflexivity|]. simpl. apply IH.
Qed.

(** [re.sub(r'[class]', '', s)] removes the characters of the class. *)
Lemma re_sub_remove (p : char -> bool) (s : str) :
  re_sub [Item p 1 (Some 1)] [] s = filter (fun c => negb (p c)) s.
Proof.
  unfold re_sub. induction s as [|c r IH]; [reflexivity|].
  cbn [re_sub_go]. rewrite re_match_one, span_cap, span_none_cons.
  destruct (p c) eqn:E; simpl; rewrite IH, E; reflexivity.
Qed.

Lemma collapse_runs_cons2 (p : char -> bool) (repl : str) (c c' : char)
      (r : str) :
  collapse_runs p repl (c :: c' :: r) =
  if p c then
    if p c' then collapse_runs p repl (c' :: r)
    else repl ++ collapse_runs p repl (c' :: r)
  else c :: collapse_runs p repl (c' :: r).
Proof. reflexivity. Qed.

Lemma collapse_runs_run (p : char -> bool) (repl : str) (c : char) (r : str) :
  p c = true ->
  collapse_runs p repl (c :: r) = repl ++ collapse_runs p repl (dropwhile p r).
Proof.
  revert c; induction r as [|c' r IH]; intros c Hc.
  - simpl. rewrite Hc, app_nil_r. reflexivity.
  - rewrite collapse_runs_cons2, Hc. cbn [dropwhile].
    destruct (p c') eqn:E; [|reflexivity]. apply IH, E.
Qed.

Lemma dropwhile_length (p : char -> bool) (s : str) :
  length (dropwhile p s) <= length s.
Proof.
  induction s as [|c r IH]; simpl; [lia|]. destruct (p c); simpl; lia.
Qed.

(** [re.sub(r'[class]+', repl, s)] replaces each maximal run. *)
Lemma re_sub_runs (p : char -> bool) (repl : str) (s : str) :
  re_sub [Item p 1 None] repl s = collapse_runs p repl s.
Proof.
  unfold re_sub.
  assert (H : forall n s, length s <= n ->
            re_sub_go [Item p 1 None] repl 0 s = collapse_runs p repl s).
  { clear s. induction n as [|n IH]; intros s Hn.
    - destruct s; [reflexivity | simpl in Hn; lia].
    - destruct s as [|c r]; [reflexivity|]. simpl in Hn.
      destruct (p c) eqn:E.
      + rewrite collapse_runs_run by exact E.
        cbn [re_sub_go]. rewrite re_match_one.
        rewrite span_none_cons, E. cbn [Nat.ltb Nat.leb].
        cbn [concat]. rewrite app_nil_r, length_firstn.
        rewrite Nat.min_l by (simpl; pose proof (span_le_length p r); lia).
        rewrite re_sub_go_skip, <- dropwhile_span.
        rewrite IH; [reflexivity|].
        pose proof (dropwhile_length p r). lia.
      + cbn [re_sub_go collapse_runs]. rewrite re_match_one.
        rewrite span_none_cons, E. simpl. rewrite IH by lia. reflexivity. }
  apply (H (length s)). lia.
Qed.

(** ** The anchor slug (C5) *)

Lemma dropwhile_ext (p q : char -> bool) (s : str) :
  (forall c, p c = q c) -> dropwhile p s = dropwhile q s.
Proof.
  intros H. induction s as [|c r IH]; simpl; [reflexivity|].
  rewrite <- H, IH. reflexivity.
Qed.

Lemma strip_by_ext (p q : char -> bool) (s : str) :
  (forall c, p c = q c) -> strip_by p s = strip_by q s.
Proof.
  intros H. unfold strip_by, lstrip_by, rstrip_by.
  rewrite (dropwhile_ext p q s H).
  rewrite (dropwhile_ext p q _ H). reflexivity.
Qed.

Section SlugSpec.

Variable isalnum : char -> bool.
Variable lower : str -> str.

Lemma generate_anchor_steps (s : str) :
  generate_anchor isalnum lower s = slug_spec isalnum lower s.
Proof.
  unfold generate_anchor, slug_spec, trim_hyphens, hyphenate_runs,
    keep_slug_chars, remove_markers, strip_chars.
  unfold markers_re, junk_re, seps_re.
  rewrite !re_sub_remove, re_sub_runs.
  rewrite (strip_by_ext (fun c => existsb (N.eqb c) (py "-")) is_hyphen).
  - f_equal. f_equal. apply filter_ext. intros c.
    rewrite negb_involutive. reflexivity.
  - intros c. simpl. unfold is_hyphen. apply orb_false_r.
Qed.

End SlugSpec.

Lemma ascii_tables_self : ascii_tables ascii_isalnum ascii_lower.
Proof. split; reflexivity. Qed.

Lemma ascii_str_filter (p : char -> bool) (s : str) :
  ascii_str s -> ascii_str (filter p s).
Proof.
  unfold ascii_str. rewrite !Forall_forall. intros H c Hc.
  apply filter_In in Hc as [Hc _]. apply H, Hc.
Qed.

Lemma ascii_lower_ascii (s : str) : ascii_str s -> ascii_str (ascii_lower s).
Proof.
  unfold ascii_str, ascii_lower. intros H. apply Forall_map.
  eapply Forall_impl; [|exact H]. simpl. intros c Hc.
  unfold ascii_lower_char.
  destruct ((65 <=? c) && (c <=? 90))%N eqn:E; [|exact Hc].
  apply andb_true_iff in E as [_ E]. apply N.leb_le in E. lia.
Qed.

(** On ASCII text the slug only depends on the ASCII part of the tables. *)
Lemma generate_anchor_ascii (isalnum : char -> bool) (lower : str -> str)
      (s : str) :
  ascii_tables isalnum lower -> ascii_str s ->
  generate_anchor isalnum lower s = generate_anchor ascii_isalnum ascii_lower s.
Proof.
  intros [Ha Hl] Hs. rewrite !generate_anchor_steps. unfold slug_spec.
  f_equal. f_equal.
  pose proof (ascii_str_filter (fun c => negb (is_marker c)) s Hs) as H1.
  fold (remove_markers s) in H1. rewrite (Hl _ H1).
  pose proof (ascii_lower_ascii _ H1) as H2.
  unfold keep_slug_chars. apply filter_ext_in. intros c Hc.
  unfold isword. rewrite Ha; [reflexivity|].
  exact (proj1 (Forall_forall _ _) H2 c Hc).
Qed.

(** C5. [generate_anchor] is the five steps of the specification applied
    in order: remove [*], [_] and backticks; lowercase; keep only word
    characters, whitespace and hyphens; turn each maximal run of
    whitespace, underscores and hyphens into one hyphen; trim hyphens at
    both ends.  With tables that are the usual ones on ASCII,
    ["Setup *Guide*!"] gives ["setup-guide"]. *)
Theorem generate_anchor_spec
    (isalnum : char -> bool) (lower : str -> str) :
  (forall s, generate_anchor isalnum lower s = slug_spec isalnum lower s)
  /\ (ascii_tables isalnum lower ->
      generate_anchor isalnum lower (py "Setup *Guide*!") = py "setup-guide").
Proof.
  split.
  - apply generate_anchor_steps.
  - intros Htab. rewrite (generate_anchor_ascii isalnum lower _ Htab).
    + vm_compute. reflexivity.
    + unfold ascii_str. repeat constructor.
Qed.

Lemma generate_anchor_spec_witness :
  ascii_tables ascii_isalnum ascii_lower
  /\ generate_anchor ascii_isalnum ascii_lower (py "Setup *Guide*!")
     = py "setup-guide".
Proof.
  split.
  - exact ascii_tables_self.
  - exact (proj2 (generate_anchor_spec ascii_isalnum ascii_lower)
             ascii_tables_self).
Defined.

(** ** Re-slugging a slug (C9) *)

Lemma filter_id (p : char -> bool) (s : str) :
  (forall c, In c s -> p c = true) -> filter p s = s.
Proof.
  induction s as [|c r IH]; intros H; simpl; [reflexivity|].
  rewrite (H c (or_introl eq_refl)). f_equal. apply IH.
  intros x Hx. apply H. right. exact Hx.
Qed.

Lemma collapse_runs_In (p : char -> bool) (repl : str) (s : str) (c : char) :
  In c (collapse_runs p repl s) -> In c repl \/ (In c s /\ p c = false).
Proof.
  induction s as [|x r IH]; [intros []|].
  destruct r as [|x' r'].
  - simpl. destruct (p x) eqn:E; [auto|].
    intros [<-|[]]. right. split; [left; reflexivity | exact E].
  - rewrite collapse_runs_cons2.
    assert (IH' : In c (collapse_runs p repl (x' :: r')) ->
                  In c repl \/ In c (x :: x' :: r') /\ p c = false).
    { intros H. apply IH in H as [H|[H1 H2]]; [auto|].
      right. split; [right; exact H1 | exact H2]. }
    destruct (p x) eqn:E.
    + destruct (p x'); [exact IH'|].
      intros H. apply in_app_or in H as [H|H]; [auto | exact (IH' H)].
    + intros [<-|H]; [|exact (IH' H)].
      right. split; [left; reflexivity | exact E].
Qed.

Lemma collapsed_fixed (s : str) :
  collapsed s = true -> collapse_runs is_sep (py "-") s = s.
Proof.
  induction s as [|c r IH]; [reflexivity|].
  intros H. apply andb_true_iff in H as [Hc Hr]. specialize (IH Hr).
  destruct r as [|c' r'].
  - simpl. destruct (is_sep c); [|reflexivity].
    rewrite andb_true_r in Hc. apply N.eqb_eq in Hc. subst. reflexivity.
  - rewrite collapse_runs_cons2, IH. destruct (is_sep c); [|reflexivity].
    apply andb_true_iff in Hc as [Hh Hn]. apply negb_true_iff in Hn.
    rewrite Hn. apply N.eqb_eq in Hh. subst. reflexivity.
Qed.

Lemma collapse_runs_collapsed (s : str) :
  collapsed (collapse_runs is_sep (py "-") s) = true.
Proof.
  induction s as [|c r IH]; [reflexivity|].
  destruct r as [|c' r'].
  - simpl. destruct (is_sep c) eqn:E; [reflexivity|].
    simpl. rewrite E. reflexivity.
  - rewrite collapse_runs_cons2. destruct (is_sep c) eqn:E.
    + destruct (is_sep c') eqn:E'; [exact IH|].
      change (py "-" ++ collapse_runs is_sep (py "-") (c' :: r'))
        with (45%N :: collapse_runs is_sep (py "-") (c' :: r')).
      cbn [collapsed]. rewrite IH, andb_true_r.
      assert (Hhd : exists t, collapse_runs is_sep (py "-") (c' :: r')
                              = c' :: t).
      { destruct r'; simpl; rewrite E'; eauto. }
      destruct Hhd as [t ->]. rewrite E'. reflexivity.
    + cbn [collapsed]. rewrite E, IH. reflexivity.
Qed.

Lemma collapsed_tail (s t : str) : collapsed (s ++ t) = true -> collapsed t = true.
Proof.
  induction s as [|c r IH]; [auto|]. simpl. intros H.
  apply andb_true_iff in H as [_ H]. exact (IH H).
Qed.

Lemma collapsed_front (s t : str) : collapsed (s ++ t) = true -> collapsed s = true.
Proof.
  induction s as [|c r IH]; [reflexivity|]. simpl. intros H.
  apply andb_true_iff in H as [Hc H]. rewrite (IH H), andb_true_r.
  destruct (is_sep c); [|reflexivity].
  apply andb_true_iff in Hc as [Hh Hn]. rewrite Hh. simpl.
  destruct r; [reflexivity | exact Hn].
Qed.

Lemma collapsed_strip_by (p : char -> bool) (s : str) :
  collapsed s = true -> collapsed (strip_by p s) = true.
Proof.
  intros H. destruct (strip_by_split p s) as [pre [post [E _]]].
  rewrite E in H. apply collapsed_tail in H. exact (collapsed_front _ _ H).
Qed.

Section SlugIdempotent.

Variable isalnum : char -> bool.
Variable lower : str -> str.

(** Facts of the Unicode tables: [*] and the backtick are not alphanumeric;
    every character of a lowercased string is itself left alone by
    [lower]; a string of such characters is left alone (the only
    context-dependent mapping is that of capital sigma); so is a hyphen. *)
Hypothesis isalnum_star : isalnum 42%N = false.
Hypothesis isalnum_backtick : isalnum 96%N = false.
Hypothesis lower_stable : forall s c, In c (lower s) -> lower [c] = [c].
Hypothesis lower_fixed :
  forall s, (forall c, In c s -> lower [c] = [c]) -> lower s = s.
Hypothesis lower_hyphen : lower (py "-") = py "-".

Lemma slug_chars (x : str) (c : char) :
  In c (slug_spec isalnum lower x) ->
  c = 45%N
  \/ (is_sep c = false
      /\ (isword isalnum c || isspace c || is_hyphen c) = true
      /\ lower [c] = [c]).
Proof.
  unfold slug_spec, trim_hyphens, hyphenate_runs. intros H.
  apply strip_by_In in H. apply collapse_runs_In in H as [H|[H Hs]].
  - destruct H as [<-|[]]. left. reflexivity.
  - right. unfold keep_slug_chars in H. apply filter_In in H as [H HK].
    split; [exact Hs|]. split; [exact HK|].
    exact (lower_stable _ _ H).
Qed.

Lemma slug_spec_idem (x : str) :
  slug_spec isalnum lower (slug_spec isalnum lower x)
  = slug_spec isalnum lower x.
Proof.
  set (y := slug_spec isalnum lower x).
  assert (Hy : forall c, In c y -> _) by exact (slug_chars x).
  assert (Hcol : collapsed y = true).
  { apply collapsed_strip_by, collapse_runs_collapsed. }
  unfold slug_spec at 1.
  assert (H1 : remove_markers y = y).
  { apply filter_id. intros c Hc. apply negb_true_iff.
    destruct (Hy c Hc) as [->|[Hs [HK _]]]; [reflexivity|].
    unfold is_marker.
    destruct (N.eqb c 42) eqn:E1.
    { apply N.eqb_eq in E1. subst. unfold isword in HK.
      rewrite isalnum_star in HK. discriminate. }
    destruct (N.eqb c 95) eqn:E2.
    { apply N.eqb_eq in E2. subst. discriminate. }
    destruct (N.eqb c 96) eqn:E3; [|reflexivity].
    apply N.eqb_eq in E3. subst. unfold isword in HK.
    rewrite isalnum_backtick in HK. discriminate. }
  rewrite H1.
  assert (H2 : lower y = y).
  { apply lower_fixed. intros c Hc.
    destruct (Hy c Hc) as [->|[_ [_ Hl]]]; [exact lower_hyphen | exact Hl]. }
  rewrite H2.
  assert (H3 : keep_slug_chars isalnum y = y).
  { apply filter_id. intros c Hc.
    destruct (Hy c Hc) as [->|[_ [HK _]]]; [apply orb_true_r | exact HK]. }
  rewrite H3. unfold hyphenate_runs. rewrite (collapsed_fixed y Hcol).
  unfold y, slug_spec, trim_hyphens. apply strip_by_idem.
Qed.

End SlugIdempotent.

(** C9. [generate_anchor] is a function of its argument alone, and its
    output is a fixed point: slugging a slug changes nothing.  The facts
    about the Unicode tables that this rests on are hypotheses. *)
Theorem generate_anchor_idempotent
    (isalnum : char -> bool) (lower : str -> str)
    (isalnum_star : isalnum 42%N = false)
    (isalnum_backtick : isalnum 96%N = false)
    (lower_stable : forall s c, In c (lower s) -> lower [c] = [c])
    (lower_fixed : forall s, (forall c, In c s -> lower [c] = [c]) -> lower s = s)
    (lower_hyphen : lower (py "-") = py "-") :
  (forall x y, x = y ->
     generate_anchor isalnum lower x = generate_anchor isalnum lower y)
  /\ (forall x, generate_anchor isalnum lower (generate_anchor isalnum lower x)
                = generate_anchor isalnum lower x).
Proof.
  split; [intros x y ->; reflexivity|].
  intros x. rewrite !generate_anchor_steps.
  apply slug_spec_idem; assumption.
Qed.

Lemma ascii_lower_char_idem (c : char) :
  ascii_lower_char (ascii_lower_char c) = ascii_lower_char c.
Proof.
  unfold ascii_lower_char.
  destruct ((65 <=? c) && (c <=? 90))%N eqn:E.
  - apply andb_true_iff in E as [E1 E2]. apply N.leb_le in E1, E2.
    assert (((65 <=? c + 32) && (c + 32 <=? 90))%N = false) as ->;
      [|reflexivity].
    apply andb_false_iff. right. apply N.leb_gt. lia.
  - rewrite E. reflexivity.
Qed.

Lemma ascii_lower_stable (s : str) (c : char) :
  In c (ascii_lower s) -> ascii_lower [c] = [c].
Proof.
  unfold ascii_lower. intros H. apply in_map_iff in H as [x [<- _]].
  simpl. rewrite ascii_lower_char_idem. reflexivity.
Qed.

Lemma ascii_lower_fixed (s : str) :
  (forall c, In c s -> ascii_lower [c] = [c]) -> ascii_lower s = s.
Proof.
  unfold ascii_lower. induction s as [|c r IH]; intros H; [reflexivity|].
  simpl. pose proof (H c (or_introl eq_refl)) as Hc. simpl in Hc.
  injection Hc as ->. f_equal. apply IH. intros x Hx. apply H. right. exact Hx.
Qed.

Lemma generate_anchor_idempotent_witness :
  generate_anchor ascii_isalnum ascii_lower
    (generate_anchor ascii_isalnum ascii_lower (py "Setup *Guide*!"))
  = generate_anchor ascii_isalnum ascii_lower (py "Setup *Guide*!").
Proof.
  exact (proj2 (generate_anchor_idempotent ascii_isalnum ascii_lower
                  eq_refl eq_refl ascii_lower_stable ascii_lower_fixed eq_refl)
           (py "Setup *Guide*!")).
Defined.

(** ** Extraction on ASCII documents *)

Lemma join_In (sep : str) (ls : list str) (l : str) (c : char) :
  In l ls -> In c l -> In c (join sep ls).
Proof.
  induction ls as [|x ls IH]; [intros []|].
  intros Hl Hc. destruct ls as [|x' ls'].
  - destruct Hl as [->|[]]. exact Hc.
  - rewrite join_cons by congruence. apply in_or_app.
    destruct Hl as [->|Hl]; [left; exact Hc|].
    right. apply in_or_app. right. exact (IH Hl Hc).
Qed.

Lemma split_In (sep : char) (s l : str) (c : char) :
  In l (split sep s) -> In c l -> In c s.
Proof.
  intros Hl Hc. rewrite <- (join_split sep s). exact (join_In _ _ _ _ Hl Hc).
Qed.

Lemma spec_heading_line_In (l t : str) (k : nat) (c : char) :
  spec_heading_line l = Some (k, t) -> In c t -> In c l.
Proof.
  unfold spec_heading_line. cbv zeta.
  destruct (_ && _); [|discriminate]. intros H. injection H as _ <-.
  intros Hc. apply strip_by_In in Hc.
  apply (strip_by_In isspace l). change (In c (strip l)).
  rewrite <- (firstn_skipn (span is_hash None (strip l)) (strip l)).
  apply in_or_app. right. exact Hc.
Qed.

Lemma extract_headings_ascii (isalnum : char -> bool) (lower : str -> str)
      (D : str) (d : Z) :
  ascii_tables isalnum lower -> ascii_str D ->
  extract_headings isalnum lower D d
  = extract_headings ascii_isalnum ascii_lower D d.
Proof.
  intros Htab HD. unfold extract_headings.
  rewrite !extract_loop_spec by apply split_no_sep.
  rewrite !flat_map_concat_map. f_equal.
  apply map_ext_in. intros [n l] Hin. apply in_combine_r in Hin.
  unfold spec_entry. simpl snd. simpl fst.
  destruct (spec_heading_line l) as [[k t]|] eqn:E; [|reflexivity].
  rewrite (generate_anchor_ascii isalnum lower t Htab); [reflexivity|].
  apply Forall_forall. intros c Hc.
  apply (proj1 (Forall_forall _ _) HD).
  apply (split_In NL D l c Hin).
  exact (spec_heading_line_In l t k c E Hc).
Qed.

(** ** The rendered block (C4) *)

Lemma str_mul_two_spaces (n : Z) :
  str_mul (py "  ") n = repeat 32%N (Z.to_nat (n * 2)).
Proof.
  unfold str_mul.
  destruct (Z.le_gt_cases n 0) as [H|H].
  - replace (Z.to_nat n) with 0 by lia.
    replace (Z.to_nat (n * 2)) with 0 by lia. reflexivity.
  - replace (Z.to_nat (n * 2)) with (Z.to_nat n * 2) by lia.
    induction (Z.to_nat n) as [|k IH]; [reflexivity|].
    simpl. rewrite IH. reflexivity.
Qed.

Lemma toc_entry_spec (h : Heading) : toc_entry h = spec_toc_line h.
Proof.
  unfold toc_entry, spec_toc_line. rewrite str_mul_two_spaces.
  reflexivity.
Qed.

Lemma join_nl_lines (ls : list str) :
  join nl (ls ++ [[]]) = concat (map (fun l => l ++ nl) ls).
Proof.
  induction ls as [|l ls IH]; [reflexivity|].
  change ((l :: ls) ++ [[]]) with (l :: (ls ++ [[]])).
  rewrite join_cons by (destruct ls; discriminate).
  simpl. rewrite IH, <- app_assoc. reflexivity.
Qed.

(** C4, as stated, fails on its example: at depth 3 the level-1 title is
    an entry too, and level-2 entries are indented by two spaces. *)
Lemma generate_toc_example_claimed_fails :
  generate_toc (extract_headings ascii_isalnum ascii_lower example_doc 3)
  <> example_toc_claimed.
Proof. vm_compute. discriminate. Qed.

(** C4, amended. For a non-empty heading sequence the block is the header
    line, a blank line, one line per heading in input order made of
    [(level - 1) * 2] spaces and [- [text](#anchor)], each line ended by a
    newline, so that a blank line closes the block.  For the example
    document at depth 3 the block lists the title as well and indents
    level 2 by two spaces and level 3 by four. *)
Theorem generate_toc_format
    (isalnum : char -> bool) (lower : str -> str) :
  (forall h hs,
      generate_toc (h :: hs)
      = toc_header ++ nl ++ nl
        ++ concat (map (fun x => spec_toc_line x ++ nl) (h :: hs)))
  /\ (ascii_tables isalnum lower ->
      generate_toc (extract_headings isalnum lower example_doc 3)
      = example_toc).
Proof.
  split.
  - intros h hs. unfold generate_toc.
    change (join nl (([toc_header; []] ++ map toc_entry (h :: hs)) ++ [[]]))
      with (join nl (toc_header :: [] ::
                     (map toc_entry (h :: hs) ++ [[]]))).
    rewrite join_cons by discriminate.
    rewrite join_cons by (simpl; discriminate).
    rewrite join_nl_lines, map_map.
    rewrite (map_ext (fun x => toc_entry x ++ nl)
               (fun x => spec_toc_line x ++ nl)).
    + reflexivity.
    + intros x. rewrite toc_entry_spec. reflexivity.
  - intros Htab.
    rewrite (extract_headings_ascii isalnum lower example_doc 3 Htab).
    + vm_compute. reflexivity.
    + unfold ascii_str. vm_compute. repeat constructor.
Qed.

Lemma generate_toc_format_witness :
  ascii_tables ascii_isalnum ascii_lower
  /\ generate_toc (extract_headings ascii_isalnum ascii_lower example_doc 3)
     = example_toc.
Proof.
  split.
  - exact ascii_tables_self.
  - exact (proj2 (generate_toc_format ascii_isalnum ascii_lower)
             ascii_tables_self).
Defined.

(** ** The locator: general facts *)

Lemma find_loop_cons (lines : list str) (i : nat) (l : str) (rest : list str) :
  find_loop lines i (l :: rest)
  = if is_header_line l then (Some i, toc_end_from lines i)
    else find_loop lines (S i) rest.
Proof. reflexivity. Qed.

Lemma find_loop_none (lines : list str) (i : nat) (rest : list str) :
  (forall l, In l rest -> is_header_line l = false) ->
  find_loop lines i rest = (None, None).
Proof.
  revert i; induction rest as [|l rest IH]; intros i H; [reflexivity|].
  rewrite find_loop_cons, (H l (or_introl eq_refl)).
  apply IH. intros x Hx. apply H. right. exact Hx.
Qed.

Lemma find_loop_hit (lines : list str) (i : nat) (pre : list str) (l : str)
      (post : list str) :
  (forall x, In x pre -> is_header_line x = false) ->
  is_header_line l = true ->
  find_loop lines i (pre ++ l :: post)
  = (Some (i + length pre), toc_end_from lines (i + length pre)).
Proof.
  revert i; induction pre as [|x pre IH]; intros i Hpre Hl.
  - simpl app. rewrite find_loop_cons, Hl. simpl length.
    rewrite Nat.add_0_r. reflexivity.
  - simpl app. rewrite find_loop_cons, (Hpre x (or_introl eq_refl)).
    simpl length.
    rewrite IH; [|intros y Hy; apply Hpre; right; exact Hy | exact Hl].
    replace (S i + length pre) with (i + S (length pre)) by lia.
    reflexivity.
Qed.

(** The outer loop stops at the first recognised header, or finds none. *)
Lemma find_loop_inv (lines : list str) (i : nat) (rest : list str) :
  (find_loop lines i rest = (None, None)
   /\ forall l, In l rest -> is_header_line l = false)
  \/ exists pre l post,
       rest = pre ++ l :: post
       /\ (forall x, In x pre -> is_header_line x = false)
       /\ is_header_line l = true
       /\ find_loop lines i rest
          = (Some (i + length pre), toc_end_from lines (i + length pre)).
Proof.
  revert i; induction rest as [|l rest IH]; intros i.
  - left. split; [reflexivity | intros l []].
  - destruct (is_header_line l) eqn:E.
    + right. exists [], l, rest. split; [reflexivity|].
      split; [intros x []|]. split; [exact E|].
      apply (find_loop_hit lines i [] l rest); [intros x [] | exact E].
    + destruct (IH (S i)) as [[H1 H2]|[pre [l' [post [H1 [H2 [H3 H4]]]]]]].
      * left. split.
        -- rewrite find_loop_cons, E. exact H1.
        -- intros x [<-|Hx]; [exact E | exact (H2 x Hx)].
      * right. exists (l :: pre), l', post. subst rest.
        split; [reflexivity|].
        split; [intros x [<-|Hx]; [exact E | exact (H2 x Hx)]|].
        split; [exact H3|].
        apply (find_loop_hit lines i (l :: pre) l' post); [|exact H3].
        intros x [<-|Hx]; [exact E | exact (H2 x Hx)].
Qed.

Lemma look_back_bounds (lines : list str) (k cnt e : nat) :
  cnt <= k -> look_back lines k cnt = Some e ->
  k - cnt < e - 1 <= k /\ 1 <= e /\ nonblank (line_at lines (e - 1)) = true.
Proof.
  revert k; induction cnt as [|cnt IH]; intros k Hk; simpl; [discriminate|].
  destruct (truthy (strip (line_at lines k))) eqn:E.
  - intros H. injection H as <-. replace (k + 1 - 1) with k by lia.
    split; [lia|]. split; [lia | exact E].
  - intros H. apply IH in H; [|lia]. destruct H as [H1 H2].
    split; [lia | exact H2].
Qed.

Lemma look_back_some (lines : list str) (k cnt k' : nat) :
  cnt <= k -> k - cnt < k' <= k -> nonblank (line_at lines k') = true ->
  exists e, look_back lines k cnt = Some e.
Proof.
  revert k; induction cnt as [|cnt IH]; intros k Hk Hk' Hnb; [lia|].
  simpl. destruct (truthy (strip (line_at lines k))) eqn:E; [eauto|].
  destruct (Nat.eq_dec k' k) as [->|Hne].
  - unfold nonblank in Hnb. congruence.
  - apply IH; [lia | lia | exact Hnb].
Qed.

Lemma look_back_none (lines : list str) (k cnt : nat) :
  cnt <= k ->
  (forall k', k - cnt < k' <= k -> nonblank (line_at lines k') = false) ->
  look_back lines k cnt = None.
Proof.
  revert k; induction cnt as [|cnt IH]; intros k Hk H; [reflexivity|].
  simpl. unfold nonblank in H. rewrite (H k) by lia.
  apply IH; [lia|]. intros k' Hk'. apply H. lia.
Qed.

Lemma scan_end_bounds (lines : list str) (i j : nat) (rest : list str)
      (e : nat) :
  i < j -> j + length rest = length lines ->
  scan_end lines i j rest = Some e -> i < e <= length lines.
Proof.
  revert j; induction rest as [|l rest IH]; intros j Hij Hlen; simpl;
    [discriminate|].
  simpl in Hlen.
  destruct (_ && negb (startswith (strip l) (py "###"))).
  - intros H. injection H as <-. lia.
  - destruct (_ && _).
    + intros H. apply look_back_bounds in H; [|lia]. lia.
    + apply IH; lia.
Qed.

(** An end bound exists as soon as a non-blank line follows the header. *)
Lemma toc_end_from_some (lines : list str) (i k : nat) :
  i < k < length lines -> nonblank (line_at lines k) = true ->
  exists e, toc_end_from lines i = Some e /\ i < e <= length lines.
Proof.
  intros Hk Hnb. unfold toc_end_from.
  destruct (scan_end lines i (i + 1) (skipn (i + 1) lines)) as [e|] eqn:E.
  - exists e. split; [reflexivity|].
    apply (scan_end_bounds lines i (i + 1) (skipn (i + 1) lines) e);
      [lia | | exact E].
    rewrite length_skipn. lia.
  - destruct (look_back_some lines (length lines - 1) (length lines - 1 - i) k)
      as [e He]; [lia | lia | exact Hnb |].
    exists e. split; [exact He|].
    apply look_back_bounds in He; [|lia]. lia.
Qed.

(** ** The splicer: general facts *)

Lemma In_firstn (n : nat) (ls : list str) (x : str) :
  In x (firstn n ls) -> In x ls.
Proof.
  intros H. rewrite <- (firstn_skipn n ls). apply in_or_app. left. exact H.
Qed.

Lemma In_skipn (n : nat) (ls : list str) (x : str) :
  In x (skipn n ls) -> In x ls.
Proof.
  intros H. rewrite <- (firstn_skipn n ls). apply in_or_app. right. exact H.
Qed.

Lemma blank_not_header (l : str) :
  nonblank l = false -> is_header_line l = false.
Proof.
  unfold nonblank, is_header_line. destruct (strip l); [reflexivity|].
  discriminate.
Qed.

(** A line that starts with ["# "] is not a recognised header. *)
Lemma title_not_header (l : str) :
  startswith l (py "# ") = true -> is_header_line l = false.
Proof.
  intros H. destruct l as [|a [|b r]]; simpl in H.
  - discriminate.
  - rewrite andb_false_r in H. discriminate.
  - apply andb_true_iff in H as [Ea H]. apply andb_true_iff in H as [Eb _].
    apply N.eqb_eq in Ea, Eb. subst.
    unfold is_header_line, strip, strip_by, lstrip_by.
    change (dropwhile isspace (35%N :: 32%N :: r)) with (35%N :: 32%N :: r).
    rewrite rstrip_by_cons, rstrip_by_cons.
    destruct (rstrip_by isspace r); reflexivity.
Qed.

Lemma skip_blank_facts (rest : list str) (a : nat) :
  a <= skip_blank a rest <= a + length rest
  /\ forall x, In x (firstn (skip_blank a rest - a) rest) -> nonblank x = false.
Proof.
  revert a; induction rest as [|l rest IH]; intros a; simpl.
  - split; [lia|]. rewrite firstn_nil. intros x [].
  - destruct (truthy (strip l)) eqn:E.
    + split; [lia|]. rewrite Nat.sub_diag. intros x [].
    + destruct (IH (S a)) as [H1 H2]. split; [lia|].
      replace (skip_blank (S a) rest - a)
        with (S (skip_blank (S a) rest - S a)) by lia.
      intros x [<-|Hx]; [exact E | exact (H2 x Hx)].
Qed.

Lemma insert_position_le (lines : list str) :
  insert_position lines <= length lines.
Proof.
  unfold insert_position. destruct lines as [|l0 rest]; [simpl; lia|].
  destruct (startswith l0 (py "# ")); [|lia].
  pose proof (skip_blank_facts rest 1) as [H _]. simpl. lia.
Qed.

(** The lines before the insertion point are the title and blank lines:
    none is a recognised header. *)
Lemma insert_position_no_header (lines : list str) (x : str) :
  In x (firstn (insert_position lines) lines) -> is_header_line x = false.
Proof.
  unfold insert_position. destruct lines as [|l0 rest]; [intros []|].
  destruct (startswith l0 (py "# ")) eqn:E; [|intros []].
  change (skipn 1 (l0 :: rest)) with rest.
  pose proof (skip_blank_facts rest 1) as [H1 H2].
  replace (skip_blank 1 rest) with (S (skip_blank 1 rest - 1)) by lia.
  intros [<-|Hx]; [exact (title_not_header _ E)|].
  exact (blank_not_header _ (H2 x Hx)).
Qed.

Lemma no_nl_split (s : str) : no_nl (split NL s).
Proof. apply split_no_sep. Qed.

Lemma no_nl_firstn (n : nat) (ls : list str) : no_nl ls -> no_nl (firstn n ls).
Proof.
  unfold no_nl. rewrite !Forall_forall. intros H x Hx.
  exact (H x (In_firstn n ls x Hx)).
Qed.

Lemma no_nl_skipn (n : nat) (ls : list str) : no_nl ls -> no_nl (skipn n ls).
Proof.
  unfold no_nl. rewrite !Forall_forall. intros H x Hx.
  exact (H x (In_skipn n ls x Hx)).
Qed.

Lemma no_nl_app (a b : list str) : no_nl a -> no_nl b -> no_nl (a ++ b).
Proof. intros Ha Hb. apply Forall_app. split; assumption. Qed.

Lemma no_nl_blank : no_nl [[]].
Proof. constructor; [intros [] | constructor]. Qed.

Lemma split_inserted (content toc : str) :
  split NL (join nl (inserted_lines (split NL content) toc))
  = inserted_lines (split NL content) toc.
Proof.
  apply split_join.
  - unfold inserted_lines. intros H. apply app_eq_nil in H as [_ H].
    discriminate.
  - unfold inserted_lines.
    repeat apply no_nl_app;
      auto using no_nl_firstn, no_nl_skipn, no_nl_split, no_nl_blank.
Qed.

Lemma split_replaced (content toc : str) (s e : nat) :
  split NL (join nl (replaced_lines (split NL content) s e toc))
  = replaced_lines (split NL content) s e toc.
Proof.
  apply split_join.
  - unfold replaced_lines. intros H. apply app_eq_nil in H as [_ H].
    apply app_eq_nil in H as [H _]. exact (split_not_nil _ _ H).
  - unfold replaced_lines.
    repeat apply no_nl_app;
      auto using no_nl_firstn, no_nl_skipn, no_nl_split.
Qed.

Lemma insert_or_update_toc_cases (content toc : str) :
  match find_existing_toc content with
  | (Some s, Some e) =>
      insert_or_update_toc content toc
      = join nl (replaced_lines (split NL content) s e toc)
  | _ =>
      insert_or_update_toc content toc
      = join nl (inserted_lines (split NL content) toc)
  end.
Proof.
  unfold insert_or_update_toc.
  destruct (find_existing_toc content) as [[s|] [e|]]; reflexivity.
Qed.

Lemma find_existing_toc_inv (content : str) :
  let lines := split NL content in
  (find_existing_toc content = (None, None)
   /\ forall l, In l lines -> is_header_line l = false)
  \/ exists pre l post,
       lines = pre ++ l :: post
       /\ (forall x, In x pre -> is_header_line x = false)
       /\ is_header_line l = true
       /\ find_existing_toc content
          = (Some (length pre), toc_end_from lines (length pre)).
Proof.
  intros lines. unfold find_existing_toc. fold lines.
  exact (find_loop_inv lines 0 lines).
Qed.

(** ** Rendering and splicing nothing (C6) *)

(** Splicing the empty text always changes the document: the insertion
    branch adds two empty lines, the replacement branch puts one empty
    line where the header line was. *)
Lemma insert_empty_changes (D : str) : insert_or_update_toc D [] <> D.
Proof.
  pose proof (insert_or_update_toc_cases D []) as Hc.
  pose proof (find_existing_toc_inv D) as Hinv. cbv zeta in Hinv.
  assert (Hins : join nl (inserted_lines (split NL D) []) <> D).
  { intros H. apply (f_equal (split NL)) in H. rewrite split_inserted in H.
    apply (f_equal (@length str)) in H. unfold inserted_lines in H.
    rewrite !length_app in H. simpl in H.
    pose proof (firstn_skipn (insert_position (split NL D)) (split NL D)) as E.
    apply (f_equal (@length str)) in E. rewrite length_app in E. lia. }
  destruct (find_existing_toc D) as [[s|] [e|]] eqn:Ef;
    rewrite Hc; try exact Hins.
  intros H. apply (f_equal (split NL)) in H. rewrite split_replaced in H.
  destruct Hinv as [[Hn _]|[pre [l [post [HL [_ [Hl Hf]]]]]]];
    [discriminate|].
  injection Hf as -> _. unfold replaced_lines in H. rewrite HL in H.
  rewrite firstn_app, firstn_all, Nat.sub_diag in H. simpl in H.
  rewrite app_nil_r in H. apply app_inv_head in H.
  injection H as <- _. discriminate.
Qed.

Section NoHeadings.

Variable isalnum : char -> bool.
Variable lower : str -> str.
Variable world : Type.
Variable extract_note_id_from_url : str -> option str.
Variable get_note_content : str -> world -> option (str * str).
Variable update_note_content : str -> str -> str -> world -> option world.
Variable update_error : str.

(** With no heading, [process_note] returns before rendering, splicing or
    updating. *)
Lemma process_note_no_headings (url : str) (d : Z) (dry_run : bool) (w : world)
      (note_id internal_id D : str) :
  extract_note_id_from_url url = Some note_id ->
  get_note_content note_id w = Some (internal_id, D) ->
  extract_headings isalnum lower D d = [] ->
  process_note isalnum lower extract_note_id_from_url get_note_content
    update_note_content update_error url d dry_run w
  = (Returned true (py "No headings found"), w, []).
Proof.
  intros Hid Hget Hhs. unfold process_note. rewrite Hid, Hget, Hhs.
  reflexivity.
Qed.

End NoHeadings.

Lemma generate_toc_empty_iff (hs : list Heading) :
  generate_toc hs = [] <-> hs = [].
Proof.
  split; [|intros ->; reflexivity].
  destruct hs as [|h hs]; [reflexivity|]. intros H. exfalso.
  unfold generate_toc in H.
  change (join nl (([toc_header; []] ++ map toc_entry (h :: hs)) ++ [[]]))
    with (join nl (toc_header :: ([] :: map toc_entry (h :: hs) ++ [[]])))
    in H.
  rewrite join_cons in H by discriminate. discriminate.
Qed.

(** C6, as stated, fails: splicing the empty text into ["abc"] gives
    ["\n\nabc"]. *)
Lemma insert_empty_toc_not_noop :
  insert_or_update_toc (py "abc") [] <> py "abc".
Proof. vm_compute. discriminate. Qed.

(** C6, amended. Rendering the empty heading sequence gives the empty
    string.  The splicer is no no-op on the empty text (its result always
    differs from the document); the document is left unchanged because
    [process_note] never calls it then: when the rendered text would be
    empty it returns at once, with no splice, no update and the remote
    state as it was. *)
Theorem empty_toc_behaviour :
  generate_toc [] = []
  /\ (forall D, insert_or_update_toc D [] <> D)
  /\ (forall isalnum lower (world : Type) extract_note_id_from_url
        (get_note_content : str -> world -> option (str * str))
        update_note_content update_error
        url d dry_run w note_id internal_id D,
        extract_note_id_from_url url = Some note_id ->
        get_note_content note_id w = Some (internal_id, D) ->
        generate_toc (extract_headings isalnum lower D d) = [] ->
        process_note isalnum lower extract_note_id_from_url get_note_content
          update_note_content update_error url d dry_run w
        = (Returned true (py "No headings found"), w, [])).
Proof.
  split; [reflexivity|]. split; [exact insert_empty_changes|].
  intros isalnum lower world eid get upd err url d dry w nid iid D H1 H2 H3.
  apply generate_toc_empty_iff in H3.
  exact (process_note_no_headings isalnum lower world eid get upd err
           url d dry w nid iid D H1 H2 H3).
Qed.

Lemma empty_toc_behaviour_witness :
  process_note ascii_isalnum ascii_lower demo_note_id demo_get demo_update
    (py "conflict") (py "42") 3 false (py "no heading here")
  = (Returned true (py "No headings found"), py "no heading here", []).
Proof.
  exact (proj2 (proj2 empty_toc_behaviour) ascii_isalnum ascii_lower
           demo_world demo_note_id demo_get demo_update (py "conflict")
           (py "42") 3%Z false (py "no heading here") (py "42") (py "42")
           (py "no heading here") eq_refl eq_refl eq_refl).
Defined.

(** ** No headings (C8) *)

(** C8. When [extract_headings] finds nothing, [process_note] makes no
    splice and no update, leaves the remote state as it was, and returns
    success with the message [No headings found]; [main] exits with 0. *)
Theorem no_headings_terminal
    (isalnum : char -> bool) (lower : str -> str) (world : Type)
    (extract_note_id_from_url : str -> option str)
    (get_note_content : str -> world -> option (str * str))
    (update_note_content : str -> str -> str -> world -> option world)
    (update_error url : str) (d : Z) (dry_run : bool) (w : world)
    (note_id internal_id D : str)
    (Hid : extract_note_id_from_url url = Some note_id)
    (Hget : get_note_content note_id w = Some (internal_id, D))
    (Hnone : length (extract_headings isalnum lower D d) = 0) :
  let r := process_note isalnum lower extract_note_id_from_url
             get_note_content update_note_content update_error
             url d dry_run w in
  r = (Returned true (py "No headings found"), w, [])
  /\ snd r = []
  /\ snd (fst r) = w
  /\ exit_status (fst (fst r)) = 0%Z.
Proof.
  apply length_zero_iff_nil in Hnone.
  intros r. unfold r.
  rewrite (process_note_no_headings isalnum lower world
             extract_note_id_from_url get_note_content update_note_content
             update_error url d dry_run w note_id internal_id D Hid Hget Hnone).
  repeat split.
Qed.

Lemma no_headings_terminal_witness :
  let r := process_note ascii_isalnum ascii_lower demo_note_id demo_get
             demo_update (py "conflict") (py "7") 2 false (py "just text") in
  r = (Returned true (py "No headings found"), py "just text", [])
  /\ snd r = []
  /\ snd (fst r) = py "just text"
  /\ exit_status (fst (fst r)) = 0%Z.
Proof.
  exact (no_headings_terminal ascii_isalnum ascii_lower demo_world
           demo_note_id demo_get demo_update (py "conflict") (py "7") 2%Z
           false (py "just text") (py "7") (py "7") (py "just text")
           eq_refl eq_refl eq_refl).
Defined.

(** ** The rendered block as lines *)

Lemma generate_toc_cons (h : Heading) (hs : list Heading) :
  generate_toc (h :: hs)
  = toc_header ++ nl ++ nl
    ++ concat (map (fun x => toc_entry x ++ nl) (h :: hs)).
Proof.
  unfold generate_toc.
  change (join nl (([toc_header; []] ++ map toc_entry (h :: hs)) ++ [[]]))
    with (join nl (toc_header :: [] :: (map toc_entry (h :: hs) ++ [[]]))).
  rewrite join_cons by discriminate.
  rewrite join_cons by (simpl; discriminate).
  rewrite join_nl_lines, map_map. reflexivity.
Qed.

Lemma split_prefix (sep : char) (a b : str) :
  ~ In sep a -> exists l0 ls, split sep (a ++ b) = (a ++ l0) :: ls.
Proof.
  induction a as [|c a IH]; intros Ha.
  - destruct (split_cons_shape sep b) as [l [ls H]]. exists l, ls. exact H.
  - destruct IH as [l0 [ls H]]; [intros Hx; apply Ha; right; exact Hx|].
    exists l0, ls. simpl. rewrite H.
    destruct (N.eqb c sep) eqn:E; [|reflexivity].
    apply N.eqb_eq in E. subst. exfalso. apply Ha. left. reflexivity.
Qed.

Lemma nonblank_of_char (l : str) (c : char) :
  In c l -> isspace c = false -> nonblank l = true.
Proof.
  intros Hc Hs. unfold nonblank. destruct (strip l) eqn:E; [|reflexivity].
  apply strip_by_nil_all in E. rewrite forallb_forall in E.
  rewrite (E c Hc) in Hs. discriminate.
Qed.

Lemma toc_header_no_nl : ~ In NL toc_header.
Proof. vm_compute. intuition discriminate. Qed.

Lemma indent_no_nl (n : Z) : ~ In NL (str_mul (py "  ") n).
Proof.
  rewrite str_mul_two_spaces. intros H. apply repeat_spec in H. discriminate.
Qed.

(** Whatever the headings hold, the block starts with the header line, a
    blank line and a non-blank line. *)
Lemma generate_toc_lines (h : Heading) (hs : list Heading) :
  exists t1 T,
    split NL (generate_toc (h :: hs)) = toc_header :: [] :: t1 :: T
    /\ nonblank t1 = true.
Proof.
  rewrite generate_toc_cons.
  change (toc_header ++ nl ++ nl
          ++ concat (map (fun x => toc_entry x ++ nl) (h :: hs)))
    with (toc_header ++ NL :: NL ::
          (toc_entry h ++ nl)
          ++ concat (map (fun x => toc_entry x ++ nl) hs)).
  rewrite split_app_no_sep by exact toc_header_no_nl.
  cbn [split]. rewrite N.eqb_refl.
  unfold toc_entry. cbv zeta. rewrite <- !app_assoc.
  set (indent := str_mul (py "  ") (level h - 1)).
  rewrite (app_assoc indent (py "- ")).
  destruct (split_prefix NL (indent ++ py "- ")
              (py "[" ++ text h ++ py "](#" ++ anchor h ++ py ")" ++ nl
               ++ concat (map (fun x => toc_entry x ++ nl) hs)))
    as [l0 [ls Hsp]].
  { intros H. apply in_app_or in H as [H|H].
    - exact (indent_no_nl _ H).
    - vm_compute in H. intuition discriminate. }
  unfold toc_entry in Hsp. cbv zeta in Hsp. rewrite Hsp.
  exists ((indent ++ py "- ") ++ l0), ls. split; [reflexivity|].
  apply (nonblank_of_char _ 45%N); [|reflexivity].
  apply in_or_app. left. apply in_or_app. right. left. reflexivity.
Qed.

Lemma toc_header_is_header : is_header_line toc_header = true.
Proof. vm_compute. reflexivity. Qed.

(** ** A header followed only by blank lines (C10) *)

Lemma header_count_app (a b : list str) :
  header_count (a ++ b) = header_count a + header_count b.
Proof. unfold header_count. rewrite filter_app, length_app. reflexivity. Qed.

Lemma header_count_none (ls : list str) :
  (forall x, In x ls -> is_header_line x = false) -> header_count ls = 0.
Proof.
  unfold header_count. induction ls as [|l ls IH]; intros H; [reflexivity|].
  simpl. rewrite (H l (or_introl eq_refl)). apply IH.
  intros x Hx. apply H. right. exact Hx.
Qed.

Lemma scan_end_blank (lines : list str) (i j : nat) (rest : list str) :
  (forall x, In x rest -> nonblank x = false) ->
  scan_end lines i j rest = None.
Proof.
  revert j; induction rest as [|l rest IH]; intros j H; [reflexivity|].
  pose proof (H l (or_introl eq_refl)) as Hl. unfold nonblank in Hl.
  cbn [scan_end]. destruct (strip l); [|discriminate].
  cbn [truthy]. rewrite andb_false_r.
  change (matches h12_re false []) with false. cbn [andb].
  apply IH. intros x Hx. apply H. right. exact Hx.
Qed.

Lemma toc_end_from_blank (pre : list str) (l : str) (post : list str) :
  (forall x, In x post -> nonblank x = false) ->
  toc_end_from (pre ++ l :: post) (length pre) = None.
Proof.
  intros H. unfold toc_end_from.
  assert (Hsk : skipn (length pre + 1) (pre ++ l :: post) = post).
  { rewrite skipn_app, skipn_all2 by lia.
    replace (length pre + 1 - length pre) with 1 by lia. reflexivity. }
  rewrite Hsk, scan_end_blank by exact H.
  apply look_back_none; [lia|]. intros k Hk.
  rewrite length_app in Hk. simpl in Hk.
  apply H. unfold line_at. rewrite app_nth2 by lia.
  destruct (k - length pre) as [|m] eqn:Em; [lia|]. simpl.
  apply nth_In. lia.
Qed.

Lemma insert_position_before_header (pre : list str) (l : str)
      (post : list str) :
  is_header_line l = true ->
  insert_position (pre ++ l :: post) <= length pre.
Proof.
  intros Hl. destruct (Nat.le_gt_cases
                         (insert_position (pre ++ l :: post)) (length pre))
    as [H|H]; [exact H|]. exfalso.
  assert (Hin : In l (firstn (insert_position (pre ++ l :: post))
                        (pre ++ l :: post))).
  { rewrite firstn_app. apply in_or_app. right.
    destruct (insert_position (pre ++ l :: post) - length pre) eqn:E; [lia|].
    left. reflexivity. }
  rewrite (insert_position_no_header _ _ Hin) in Hl. discriminate.
Qed.

Lemma toc_entry_no_nl (h : Heading) : clean h -> ~ In NL (toc_entry h).
Proof.
  intros [Ht Ha] H. unfold toc_entry in H. cbv zeta in H.
  apply in_app_or in H as [H|H]; [exact (indent_no_nl _ H)|].
  apply in_app_or in H as [H|H]; [vm_compute in H; intuition discriminate|].
  apply in_app_or in H as [H|H]; [vm_compute in H; intuition discriminate|].
  apply in_app_or in H as [H|H]; [exact (Ht H)|].
  apply in_app_or in H as [H|H]; [vm_compute in H; intuition discriminate|].
  apply in_app_or in H as [H|H]; [exact (Ha H)|].
  vm_compute in H. intuition discriminate.
Qed.

Lemma dropwhile_indent (k : nat) (r : str) :
  dropwhile isspace (repeat 32%N k ++ 45%N :: r) = 45%N :: r.
Proof. induction k as [|k IH]; [reflexivity | exact IH]. Qed.

Lemma toc_entry_not_header (h : Heading) : is_header_line (toc_entry h) = false.
Proof.
  unfold is_header_line, toc_entry, strip, strip_by, lstrip_by. cbv zeta.
  rewrite str_mul_two_spaces.
  change (py "- " ++ py "[" ++ text h ++ py "](#" ++ anchor h ++ py ")")
    with (45%N :: 32%N :: py "[" ++ text h ++ py "](#" ++ anchor h ++ py ")").
  rewrite dropwhile_indent.
  destruct (rstrip_by_head isspace 45%N
              (32%N :: py "[" ++ text h ++ py "](#" ++ anchor h ++ py ")")
              eq_refl) as [t Ht].
  match goal with
  | |- str_in ?x _ = _ => assert (Hx : x = 45%N :: t) by exact Ht; rewrite Hx
  end.
  reflexivity.
Qed.

Lemma generate_toc_clean_lines (h : Heading) (hs : list Heading) :
  Forall clean (h :: hs) ->
  split NL (generate_toc (h :: hs))
  = toc_header :: [] :: map toc_entry (h :: hs) ++ [[]].
Proof.
  intros Hc. unfold generate_toc.
  change (([toc_header; []] ++ map toc_entry (h :: hs)) ++ [[]])
    with (toc_header :: [] :: map toc_entry (h :: hs) ++ [[]]).
  apply split_join; [discriminate|].
  constructor; [exact toc_header_no_nl|].
  constructor; [intros []|].
  apply Forall_app. split; [|exact no_nl_blank].
  apply Forall_map. eapply Forall_impl; [|exact Hc].
  exact toc_entry_no_nl.
Qed.

Lemma header_count_toc_clean (h : Heading) (hs : list Heading) :
  Forall clean (h :: hs) ->
  header_count (split NL (generate_toc (h :: hs))) = 1.
Proof.
  intros Hc. rewrite generate_toc_clean_lines by exact Hc.
  change (toc_header :: [] :: map toc_entry (h :: hs) ++ [[]])
    with ([toc_header; []] ++ map toc_entry (h :: hs) ++ [[]]).
  rewrite !header_count_app.
  rewrite (header_count_none (map toc_entry (h :: hs))).
  - reflexivity.
  - intros x Hx. apply in_map_iff in Hx as [y [<- _]].
    apply toc_entry_not_header.
Qed.

Lemma header_count_toc_pos (h : Heading) (hs : list Heading) :
  1 <= header_count (split NL (generate_toc (h :: hs))).
Proof.
  destruct (generate_toc_lines h hs) as [t1 [T [HT _]]]. rewrite HT.
  unfold header_count. cbn [filter]. rewrite toc_header_is_header.
  simpl. lia.
Qed.

(** C10, as stated, fails for a non-empty text that is no rendered block:
    in ["intro\n## TOC\n\n"] the header is followed by blank lines only
    and the locator returns [(1, None)], but splicing ["x"] gives a
    document with one recognised header line, not two. *)
Lemma header_then_blanks_plain_text_one_header :
  find_existing_toc (join nl [py "intro"; py "## TOC"; []; []])
  = (Some 1, None)
  /\ py "x" <> []
  /\ header_count
       (split NL
          (insert_or_update_toc
             (join nl [py "intro"; py "## TOC"; []; []]) (py "x")))
     <> 2.
Proof.
  split; [reflexivity|]. split; [discriminate|].
  vm_compute. discriminate.
Qed.

(** C10, amended. When the first recognised header of [D] is followed by
    blank lines only (or by nothing), the locator returns its index with
    no end bound, so the splicer takes the insertion branch for every
    text: the old header line stays, and the result has one recognised
    header line more than the spliced text.  It has two of them exactly
    when the spliced text has one; a rendered block, which starts with
    the header ['## 目次'], thus leaves at least two recognised header
    lines in the document, and exactly two when the entries hold no
    newline. *)
Theorem header_then_blanks_duplicates
    (D : str) (pre : list str) (l : str) (post : list str)
    (h : Heading) (hs : list Heading)
    (Hlines : split NL D = pre ++ l :: post)
    (Hpre : forall x, In x pre -> is_header_line x = false)
    (Hl : is_header_line l = true)
    (Hpost : forall x, In x post -> nonblank x = false) :
  find_existing_toc D = (Some (length pre), None)
  /\ (forall toc,
        insert_or_update_toc D toc
        = join nl (inserted_lines (split NL D) toc))
  /\ (forall toc,
        header_count (split NL (insert_or_update_toc D toc))
        = header_count (split NL toc) + 1)
  /\ (forall toc,
        header_count (split NL (insert_or_update_toc D toc)) = 2
        <-> header_count (split NL toc) = 1)
  /\ let lines' :=
       split NL (insert_or_update_toc D (generate_toc (h :: hs))) in
     2 <= header_count lines'
     /\ (Forall clean (h :: hs) -> header_count lines' = 2).
Proof.
  assert (Hfind : find_existing_toc D = (Some (length pre), None)).
  { unfold find_existing_toc. rewrite Hlines.
    rewrite (find_loop_hit (pre ++ l :: post) 0 pre l post Hpre Hl).
    simpl. rewrite (toc_end_from_blank pre l post Hpost). reflexivity. }
  assert (Hins : forall toc, insert_or_update_toc D toc
                   = join nl (inserted_lines (split NL D) toc)).
  { intros toc. pose proof (insert_or_update_toc_cases D toc) as Hc.
    rewrite Hfind in Hc. exact Hc. }
  assert (Hcount : forall toc,
             header_count (split NL (insert_or_update_toc D toc))
             = header_count (split NL toc) + 1).
  { intros toc. rewrite Hins, split_inserted.
    unfold inserted_lines. rewrite Hlines.
    set (p := insert_position (pre ++ l :: post)).
    assert (Hp : p <= length pre) by exact (insert_position_before_header
                                              pre l post Hl).
    assert (Hsk : skipn p (pre ++ l :: post) = skipn p pre ++ l :: post).
    { rewrite skipn_app. replace (p - length pre) with 0 by lia.
      reflexivity. }
    rewrite Hsk, !header_count_app.
    rewrite (header_count_none (firstn p (pre ++ l :: post)))
      by apply insert_position_no_header.
    rewrite (header_count_none (skipn p pre))
      by (intros x Hx; exact (Hpre x (In_skipn p pre x Hx))).
    assert (Hold : header_count (l :: post) = 1).
    { change (l :: post) with ([l] ++ post).
      rewrite header_count_app, (header_count_none post).
      - unfold header_count. cbn [filter]. rewrite Hl. reflexivity.
      - intros x Hx. exact (blank_not_header x (Hpost x Hx)). }
    rewrite Hold. change (header_count [[]]) with 0. lia. }
  split; [exact Hfind|]. split; [exact Hins|]. split; [exact Hcount|].
  split; [intros toc; rewrite Hcount; lia|].
  intros lines'. unfold lines'. rewrite Hcount.
  split.
  - pose proof (header_count_toc_pos h hs). lia.
  - intros Hc. rewrite (header_count_toc_clean h hs Hc). reflexivity.
Qed.

Lemma header_then_blanks_duplicates_witness :
  let D := join nl [py "intro"; py "## TOC"; []; []] in
  find_existing_toc D = (Some 1, None)
  /\ (forall toc,
        insert_or_update_toc D toc
        = join nl (inserted_lines (split NL D) toc))
  /\ (forall toc,
        header_count (split NL (insert_or_update_toc D toc))
        = header_count (split NL toc) + 1)
  /\ (forall toc,
        header_count (split NL (insert_or_update_toc D toc)) = 2
        <-> header_count (split NL toc) = 1)
  /\ let lines' :=
       split NL (insert_or_update_toc D
                   (generate_toc [mkHeading 2 (py "TOC") (py "toc") 2])) in
     2 <= header_count lines'
     /\ (Forall clean [mkHeading 2 (py "TOC") (py "toc") 2] ->
         header_count lines' = 2).
Proof.
  apply (header_then_blanks_duplicates
           (join nl [py "intro"; py "## TOC"; []; []])
           [py "intro"] (py "## TOC") [[]; []]
           (mkHeading 2 (py "TOC") (py "toc") 2) []).
  - reflexivity.
  - intros x [<-|[]]. reflexivity.
  - reflexivity.
  - intros x [<-|[<-|[]]]; reflexivity.
Defined.

(** ** Splice, then locate (C7) *)

(** C7. If the locator finds no block in [D], then after splicing the
    rendering of a non-empty heading sequence the locator finds a block:
    a start and an end, [start < end], whose header line is ['## 目次'];
    it is the first recognised header of the new document and sits right
    after the insertion point.  When [D] has no recognised header line
    at all and the entries hold no newline, it is the only recognised
    header line of the new document. *)
Theorem splice_then_locate (D : str) (h : Heading) (hs : list Heading)
    (Hnone : forall s e, find_existing_toc D <> (Some s, Some e)) :
  let D' := insert_or_update_toc D (generate_toc (h :: hs)) in
  let lines' := split NL D' in
  exists s e,
    find_existing_toc D' = (Some s, Some e)
    /\ s < e <= length lines'
    /\ nth_error lines' s = Some toc_header
    /\ (forall k l, k < s -> nth_error lines' k = Some l ->
        is_header_line l = false)
    /\ s = insert_position (split NL D) + 1
    /\ ((forall x, In x (split NL D) -> is_header_line x = false) ->
        Forall clean (h :: hs) -> header_count lines' = 1).
Proof.
  intros D' lines'.
  set (L := split NL D). set (p := insert_position L).
  destruct (generate_toc_lines h hs) as [t1 [T [HT Ht1]]].
  assert (HD' : D' = join nl (inserted_lines L (generate_toc (h :: hs)))).
  { unfold D'. pose proof (insert_or_update_toc_cases D
                             (generate_toc (h :: hs))) as Hc.
    destruct (find_existing_toc D) as [[s|] [e|]]; try exact Hc.
    exfalso. exact (Hnone s e eq_refl). }
  set (pre := firstn p L ++ [[]]).
  assert (HL' : lines' = pre ++ toc_header :: ([] :: t1 :: T ++ skipn p L)).
  { unfold lines'. rewrite HD'. unfold L. rewrite split_inserted.
    unfold inserted_lines. fold L. fold p. rewrite HT. unfold pre.
    rewrite <- !app_assoc. reflexivity. }
  assert (Hp : p <= length L) by apply insert_position_le.
  assert (Hlen : length pre = p + 1).
  { unfold pre. rewrite length_app, length_firstn. simpl. lia. }
  assert (Hpre : forall x, In x pre -> is_header_line x = false).
  { intros x Hx. unfold pre in Hx. apply in_app_or in Hx as [Hx|[<-|[]]].
    - exact (insert_position_no_header L x Hx).
    - reflexivity. }
  assert (Hfind : find_existing_toc D'
                  = (Some (p + 1), toc_end_from lines' (p + 1))).
  { unfold find_existing_toc. fold lines'. rewrite HL' at 2.
    rewrite (find_loop_hit lines' 0 pre toc_header _ Hpre toc_header_is_header).
    rewrite Hlen. reflexivity. }
  assert (Hlt : p + 3 < length lines').
  { rewrite HL', length_app, Hlen. simpl. lia. }
  destruct (toc_end_from_some lines' (p + 1) (p + 3)) as [e [He Hb]].
  - lia.
  - unfold line_at. rewrite HL'.
    rewrite app_nth2 by lia. rewrite Hlen.
    replace (p + 3 - (p + 1)) with 2 by lia. exact Ht1.
  - exists (p + 1), e. split; [rewrite Hfind, He; reflexivity|].
    split; [exact Hb|]. split.
    + rewrite HL', nth_error_app2 by lia. rewrite Hlen, Nat.sub_diag.
      reflexivity.
    + split; [|split; [reflexivity|]].
      * intros k l Hk Hl. apply Hpre.
        rewrite HL', nth_error_app1 in Hl by lia.
        exact (nth_error_In _ _ Hl).
      * intros Hno Hclean. unfold lines'. rewrite HD'. unfold L.
        rewrite split_inserted. unfold inserted_lines.
        rewrite !header_count_app.
        rewrite (header_count_toc_clean h hs Hclean).
        rewrite (header_count_none (firstn _ _))
          by (intros x Hx; exact (Hno x (In_firstn _ _ x Hx))).
        rewrite (header_count_none (skipn _ _))
          by (intros x Hx; exact (Hno x (In_skipn _ _ x Hx))).
        reflexivity.
Qed.

Lemma splice_then_locate_witness :
  let D := join nl [py "# Notes"; []; py "Some text."; py "## Usage"] in
  let hs := extract_headings ascii_isalnum ascii_lower D 3 in
  let D' := insert_or_update_toc D (generate_toc hs) in
  exists s e,
    find_existing_toc D' = (Some s, Some e)
    /\ s < e <= length (split NL D')
    /\ nth_error (split NL D') s = Some toc_header
    /\ (forall k l, k < s -> nth_error (split NL D') k = Some l ->
        is_header_line l = false)
    /\ s = insert_position (split NL D) + 1
    /\ ((forall x, In x (split NL D) -> is_header_line x = false) ->
        Forall clean hs -> header_count (split NL D') = 1).
Proof.
  exact (splice_then_locate
           (join nl [py "# Notes"; []; py "Some text."; py "## Usage"])
           (mkHeading 1 (py "Notes") (py "notes") 1)
           [mkHeading 2 (py "Usage") (py "usage") 4]
           (fun s e (H : find_existing_toc
                           (join nl [py "# Notes"; []; py "Some text.";
                                     py "## Usage"]) = (Some s, Some e)) =>
              match H in _ = r return
                    match r with (None, _) => True | _ => False end
              with eq_refl => I end)).
Defined.

(** ** Running the pipeline twice (C1) *)

(** C1 fails on the code. On ["# T\ntext"] at depth 1 the first run
    inserts the block; the second run finds it, but the end bound stops
    before the blank line that closes the block, so the replacement adds a
    blank line: the document changes, and it grows at every further run.
    On the example document at depth 3 the second run also differs: the
    header line of the block is itself extracted as a level-2 heading. *)
Theorem pipeline_second_run_changes :
  let run := run_pipeline ascii_isalnum ascii_lower in
  run growing_doc 1%Z
  = join nl [py "# T"; []; toc_header; []; py "- [T](#t)"; []; py "text"]
  /\ run (run growing_doc 1%Z) 1%Z
     = join nl [py "# T"; []; toc_header; []; py "- [T](#t)"; []; [];
                py "text"]
  /\ run (run growing_doc 1%Z) 1%Z <> run growing_doc 1%Z
  /\ run (run (run growing_doc 1%Z) 1%Z) 1%Z <> run (run growing_doc 1%Z) 1%Z
  /\ run (run example_doc 3%Z) 3%Z <> run example_doc 3%Z.
Proof.
  cbv zeta. repeat split; try (vm_compute; reflexivity);
    vm_compute; discriminate.
Qed.

(** ** The end bound when content follows the header directly (C3) *)

Lemma look_back_one_more (lines : list str) (k cnt : nat) :
  cnt <= k ->
  look_back lines k (S cnt) =
  match look_back lines k cnt with
  | Some e => Some e
  | None =>
      if nonblank (line_at lines (k - cnt)) then Some (k - cnt + 1) else None
  end.
Proof.
  revert k; induction cnt as [|cnt IH]; intros k Hk.
  - simpl. rewrite Nat.sub_0_r. reflexivity.
  - change (look_back lines k (S (S cnt)))
      with (if truthy (strip (line_at lines k)) then Some (k + 1)
            else look_back lines (k - 1) (S cnt)).
    change (look_back lines k (S cnt))
      with (if truthy (strip (line_at lines k)) then Some (k + 1)
            else look_back lines (k - 1) cnt).
    destruct (truthy (strip (line_at lines k))); [reflexivity|].
    rewrite IH by lia. replace (k - 1 - cnt) with (k - S cnt) by lia.
    reflexivity.
Qed.

(** The look-back of the specification agrees with that of the code when
    the latter finds a line; otherwise it stops at the header line. *)
Lemma spec_look_back_code (lines : list str) (i j : nat) :
  i < j -> nonblank (line_at lines i) = true ->
  spec_look_back lines i j =
  match look_back lines (j - 1) (j - 1 - i) with
  | Some e => Some e
  | None => Some (i + 1)
  end.
Proof.
  intros Hij Hi. unfold spec_look_back.
  replace (j - i) with (S (j - 1 - i)) by lia.
  rewrite look_back_one_more by lia.
  replace (j - 1 - (j - 1 - i)) with i by lia. rewrite Hi. reflexivity.
Qed.

Lemma scan_end_vs_spec (lines : list str) (i j : nat) (rest : list str) :
  i < j -> nonblank (line_at lines i) = true ->
  match scan_end lines i j rest with
  | Some e => spec_scan_end lines i j rest = Some e
  | None =>
      spec_scan_end lines i j rest = None
      \/ spec_scan_end lines i j rest = Some (i + 1)
  end.
Proof.
  intros Hij Hi. revert j Hij.
  induction rest as [|l rest IH]; intros j Hij; [left; reflexivity|].
  cbn [scan_end spec_scan_end].
  destruct (_ && negb (startswith (strip l) (py "###"))); [reflexivity|].
  destruct (_ && _).
  - rewrite (spec_look_back_code lines i j Hij Hi).
    destruct (look_back lines (j - 1) (j - 1 - i)); [reflexivity|].
    right. reflexivity.
  - apply IH. lia.
Qed.

(** Where the locator of the code and that of the specification part: the
    code gives the end bound of the specification, except when content
    follows the header with only blank lines in between; there the
    specification ends the block right after the header line and the code
    runs to the last non-blank line of the document. *)
Lemma toc_end_from_vs_spec (lines : list str) (i : nat) :
  nonblank (line_at lines i) = true ->
  toc_end_from lines i = spec_toc_end_from lines i
  \/ (spec_toc_end_from lines i = Some (i + 1)
      /\ toc_end_from lines i
         = look_back lines (length lines - 1) (length lines - 1 - i)).
Proof.
  intros Hi. unfold toc_end_from, spec_toc_end_from.
  pose proof (scan_end_vs_spec lines i (i + 1) (skipn (i + 1) lines)
                ltac:(lia) Hi) as H.
  destruct (scan_end lines i (i + 1) (skipn (i + 1) lines)) as [e|].
  - rewrite H. left. reflexivity.
  - destruct H as [H|H]; rewrite H; [left; reflexivity|].
    right. split; reflexivity.
Qed.

(** C3 fails on the code. In ["## TOC\n\ntext\nmore"] the line [text] is
    the first content line after the header; the last non-blank line
    before it is the header itself, so the block ends at 1 for the
    specification ([spec_toc_end_from]).  The look-back of the code stops
    short of the header, finds nothing, and the end-of-document fallback
    then returns 4: the block covers the content, which the splicer
    deletes. *)
Theorem find_existing_toc_swallows_content :
  find_existing_toc swallowed_doc = (Some 0, Some 4)
  /\ spec_toc_end_from (split NL swallowed_doc) 0 = Some 1
  /\ look_back (split NL swallowed_doc) (2 - 1) (2 - 1 - 0) = None
  /\ insert_or_update_toc swallowed_doc
       (generate_toc (extract_headings ascii_isalnum ascii_lower
                        swallowed_doc 3))
     = join nl [toc_header; []; py "  - [TOC](#toc)"; []].
Proof. repeat split; vm_compute; reflexivity. Qed.

(** ** Worked examples *)

Example heading_plain :
  heading_of_line ascii_isalnum ascii_lower 3 7 (py "  ## Getting  Started ")
  = [mkHeading 2 (py "Getting  Started") (py "getting-started") 7].
Proof. vm_compute. reflexivity. Qed.

Example heading_seven_hashes :
  heading_of_line ascii_isalnum ascii_lower 6 1 (py "####### deep") = [].
Proof. vm_compute. reflexivity. Qed.

Example heading_no_space :
  heading_of_line ascii_isalnum ascii_lower 6 1 (py "#tag") = [].
Proof. vm_compute. reflexivity. Qed.

Example heading_no_text :
  heading_of_line ascii_isalnum ascii_lower 6 1 (py "##   ") = [].
Proof. vm_compute. reflexivity. Qed.

Example heading_too_deep :
  heading_of_line ascii_isalnum ascii_lower 2 1 (py "### Sub") = [].
Proof. vm_compute. reflexivity. Qed.

Example h12_not_level_three :
  matches h12_re false (py "## Next") = true
  /\ matches h12_re false (py "### Sub") = false.
Proof. split; vm_compute; reflexivity. Qed.

Example anchor_underscores_and_spaces :
  generate_anchor ascii_isalnum ascii_lower (py " API -- `v2` _notes_ ")
  = py "api-v2-notes".
Proof. vm_compute. reflexivity. Qed.

Example locate_block_before_heading :
  find_existing_toc
    (join nl [py "# T"; []; py "## TOC"; []; py "- [A](#a)"; py "  - [B](#b)";
              []; py "## A"; py "### B"])
  = (Some 2, Some 7).
Proof. vm_compute. reflexivity. Qed.

Example locate_block_before_content :
  find_existing_toc
    (join nl [py "## TOC"; []; py "- [A](#a)"; []; py "text"; py "## A"])
  = (Some 0, Some 3).
Proof. vm_compute. reflexivity. Qed.

Example update_in_place :
  insert_or_update_toc
    (join nl [py "# T"; []; py "## TOC"; []; py "- old"; []; py "## A"])
    (generate_toc [mkHeading 2 (py "A") (py "a") 7])
  = join nl [py "# T"; []; toc_header; []; py "  - [A](#a)"; []; py "## A"].
Proof. vm_compute. reflexivity. Qed.

(** * Further properties of the code *)

(** ** The shape of an anchor *)

Lemma slug_spec_chars (isalnum : char -> bool) (lower : str -> str)
      (x : str) (c : char) :
  In c (slug_spec isalnum lower x) ->
  c = 45%N \/ (is_sep c = false /\ isalnum c = true).
Proof.
  unfold slug_spec, trim_hyphens, hyphenate_runs. intros H.
  apply strip_by_In in H. apply collapse_runs_In in H as [H|[H Hs]].
  - destruct H as [<-|[]]. left. reflexivity.
  - right. split; [exact Hs|].
    unfold keep_slug_chars in H. apply filter_In in H as [_ HK].
    unfold is_sep in Hs. apply orb_false_iff in Hs as [Hs H45].
    apply orb_false_iff in Hs as [Hsp H95].
    unfold isword, is_hyphen in HK. rewrite Hsp, H95, H45 in HK.
    rewrite !orb_false_r in HK. exact HK.
Qed.

(** X1. Whatever the tables, an anchor is made of hyphens and of alphanumeric
    characters that are neither whitespace nor underscores; it neither
    starts nor ends with a hyphen and never holds two hyphens in a row. *)
Theorem generate_anchor_shape
    (isalnum : char -> bool) (lower : str -> str) (x : str) :
  let a := generate_anchor isalnum lower x in
  (forall c, In c a ->
     isspace c = false /\ c <> 95%N /\ (c = 45%N \/ isalnum c = true))
  /\ (forall r, a <> 45%N :: r)
  /\ (forall r, a <> r ++ [45%N])
  /\ (forall u v, a <> u ++ 45%N :: 45%N :: v).
Proof.
  intros a. unfold a. rewrite generate_anchor_steps.
  split; [|split; [|split]].
  - intros c Hc. destruct (slug_spec_chars isalnum lower x c Hc) as [->|[Hs Ha]].
    + repeat split; [discriminate | left; reflexivity].
    + unfold is_sep in Hs. apply orb_false_iff in Hs as [Hs _].
      apply orb_false_iff in Hs as [Hsp H95].
      split; [exact Hsp|]. split; [|right; exact Ha].
      intros ->. discriminate.
  - intros r H.
    pose proof (strip_by_trimmed is_hyphen
                  (hyphenate_runs (keep_slug_chars isalnum
                     (lower (remove_markers x))))) as [Hh _].
    fold (trim_hyphens (hyphenate_runs (keep_slug_chars isalnum
                                          (lower (remove_markers x))))) in Hh.
    fold (slug_spec isalnum lower x) in Hh.
    specialize (Hh _ _ H). discriminate.
  - intros r H.
    pose proof (strip_by_trimmed is_hyphen
                  (hyphenate_runs (keep_slug_chars isalnum
                     (lower (remove_markers x))))) as [_ Hl].
    fold (trim_hyphens (hyphenate_runs (keep_slug_chars isalnum
                                          (lower (remove_markers x))))) in Hl.
    fold (slug_spec isalnum lower x) in Hl.
    specialize (Hl _ _ H). discriminate.
  - intros u v H.
    assert (Hc : collapsed (slug_spec isalnum lower x) = true).
    { apply collapsed_strip_by, collapse_runs_collapsed. }
    rewrite H in Hc. apply collapsed_tail in Hc. discriminate.
Qed.

Lemma generate_anchor_no_space (isalnum : char -> bool) (lower : str -> str)
      (x : str) (c : char) :
  In c (generate_anchor isalnum lower x) -> isspace c = false.
Proof.
  rewrite generate_anchor_steps. intros H.
  destruct (slug_spec_chars isalnum lower x c H) as [->|[Hs _]];
    [reflexivity|].
  unfold is_sep in Hs. apply orb_false_iff in Hs as [Hs _].
  apply orb_false_iff in Hs as [Hsp _]. exact Hsp.
Qed.

Lemma generate_anchor_no_nl (isalnum : char -> bool) (lower : str -> str)
      (x : str) :
  ~ In NL (generate_anchor isalnum lower x).
Proof.
  intros H. pose proof (generate_anchor_no_space isalnum lower x NL H).
  discriminate.
Qed.

(** ** More on heading extraction *)

Lemma split_app_sep (sep : char) (a b : str) :
  split sep (a ++ sep :: b) = split sep a ++ split sep b.
Proof.
  induction a as [|c a IH]; simpl.
  - rewrite N.eqb_refl. reflexivity.
  - rewrite IH. destruct (N.eqb c sep); [reflexivity|].
    destruct (split_cons_shape sep a) as [l [ls ->]]. reflexivity.
Qed.

Section ExtractMore.

Variable isalnum : char -> bool.
Variable lower : str -> str.

Lemma extract_loop_app (d : Z) (n : nat) (xs ys : list str) :
  extract_loop isalnum lower d n (xs ++ ys)
  = extract_loop isalnum lower d n xs
    ++ extract_loop isalnum lower d (n + length xs) ys.
Proof.
  revert n; induction xs as [|x xs IH]; intros n; simpl.
  - rewrite Nat.add_0_r. reflexivity.
  - rewrite IH, <- app_assoc.
    replace (S n + length xs) with (n + S (length xs)) by lia. reflexivity.
Qed.

Lemma heading_of_line_shift (d : Z) (n m : nat) (l : str) :
  heading_of_line isalnum lower d (n + m) l
  = map (shift_line m) (heading_of_line isalnum lower d n l).
Proof.
  unfold heading_of_line.
  destruct (re_match heading_re true (strip l)) as [gs|]; [|reflexivity].
  destruct gs as [|g1 [|g2 [|g3 [|g4 gs]]]]; try reflexivity.
  destruct (Z.of_nat (length g1) <=? d)%Z; reflexivity.
Qed.

Lemma extract_loop_shift (d : Z) (n m : nat) (ls : list str) :
  extract_loop isalnum lower d (n + m) ls
  = map (shift_line m) (extract_loop isalnum lower d n ls).
Proof.
  revert n; induction ls as [|l ls IH]; intros n; [reflexivity|].
  simpl. rewrite map_app, heading_of_line_shift.
  change (S (n + m)) with (S n + m). rewrite IH. reflexivity.
Qed.

(** A heading list is at most one entry or none per line, of some level. *)
Lemma heading_of_line_filter (d d' : Z) (n : nat) (l : str) :
  (d <= d')%Z ->
  heading_of_line isalnum lower d n l
  = filter (fun h => (level h <=? d)%Z)
      (heading_of_line isalnum lower d' n l).
Proof.
  intros Hd. unfold heading_of_line.
  destruct (re_match heading_re true (strip l)) as [gs|]; [|reflexivity].
  destruct gs as [|g1 [|g2 [|g3 [|g4 gs]]]]; try reflexivity.
  destruct (Z.of_nat (length g1) <=? d)%Z eqn:E.
  - apply Z.leb_le in E.
    assert ((Z.of_nat (length g1) <=? d')%Z = true) as ->
        by (apply Z.leb_le; lia).
    simpl. apply Z.leb_le in E. rewrite E. reflexivity.
  - destruct (Z.of_nat (length g1) <=? d')%Z; [|reflexivity].
    simpl. rewrite E. reflexivity.
Qed.

End ExtractMore.

(** X2. Lowering the depth is the same as filtering the entries by level: the
    entries of depth [d] are those of any larger depth [d'] whose level is
    at most [d], in the same order and with the same source lines. *)
Theorem extract_headings_depth_filter
    (isalnum : char -> bool) (lower : str -> str) (D : str) (d d' : Z)
    (Hd : (d <= d')%Z) :
  extract_headings isalnum lower D d
  = filter (fun h => (level h <=? d)%Z) (extract_headings isalnum lower D d').
Proof.
  unfold extract_headings. generalize 1 as n.
  induction (split NL D) as [|l ls IH]; intros n; [reflexivity|].
  simpl. rewrite filter_app, <- IH.
  rewrite (heading_of_line_filter isalnum lower d d' n l Hd). reflexivity.
Qed.

Lemma extract_headings_depth_filter_witness :
  extract_headings ascii_isalnum ascii_lower example_doc 2
  = filter (fun h => (level h <=? 2)%Z)
      (extract_headings ascii_isalnum ascii_lower example_doc 6).
Proof.
  apply (extract_headings_depth_filter ascii_isalnum ascii_lower
           example_doc 2 6). lia.
Defined.

(** X3. Extraction goes line by line: the entries of [A], a newline and [B]
    are those of [A] followed by those of [B], the latter with their
    source lines moved down by the number of lines of [A]. *)
Theorem extract_headings_concat
    (isalnum : char -> bool) (lower : str -> str) (A B : str) (d : Z) :
  extract_headings isalnum lower (A ++ NL :: B) d
  = extract_headings isalnum lower A d
    ++ map (shift_line (length (split NL A)))
         (extract_headings isalnum lower B d).
Proof.
  unfold extract_headings. rewrite split_app_sep, extract_loop_app.
  rewrite extract_loop_shift. reflexivity.
Qed.

Lemma span_hash_repeat (s : str) :
  firstn (span is_hash None s) s = repeat 35%N (span is_hash None s).
Proof.
  induction s as [|c r IH]; [reflexivity|].
  rewrite span_none_cons. destruct (is_hash c) eqn:E; [|reflexivity].
  unfold is_hash in E. apply N.eqb_eq in E. subst. simpl.
  f_equal. exact IH.
Qed.

Lemma rstrip_by_suffix_of_trimmed (p : char -> bool) (a b : str) :
  trimmed p (a ++ b) -> rstrip_by p b = b.
Proof.
  intros [_ Hl]. destruct b as [|c b] using rev_ind; [reflexivity|].
  rewrite rstrip_by_snoc.
  rewrite (Hl c (a ++ b)); [reflexivity|]. apply app_assoc.
Qed.

(** What a matching line looks like: the run of [#], the whitespace, the
    text; nothing else. *)
Lemma spec_heading_line_shape (l : str) (k : nat) (t : str) :
  spec_heading_line l = Some (k, t) ->
  exists ws,
    strip l = repeat 35%N k ++ ws ++ t
    /\ 1 <= k <= 6
    /\ ws <> [] /\ forallb isspace ws = true
    /\ t <> [] /\ trimmed isspace t.
Proof.
  unfold spec_heading_line. cbv zeta.
  set (s := strip l). set (k0 := span is_hash None s).
  set (rest := skipn k0 s).
  destruct ((1 <=? k0) && (k0 <=? 6)) eqn:Ek; [|discriminate].
  rewrite andb_true_l.
  destruct rest as [|c r] eqn:Er; [discriminate|].
  destruct (isspace c) eqn:Ec; [|discriminate]. rewrite andb_true_l.
  destruct (truthy (strip (c :: r))) eqn:Et; [|discriminate].
  intros H. injection H as <- <-.
  apply andb_true_iff in Ek as [H1 H6]. apply Nat.leb_le in H1, H6.
  set (m := span isspace None (c :: r)).
  assert (Hm : 1 <= m).
  { unfold m. rewrite span_none_cons, Ec. lia. }
  assert (Htr : trimmed isspace s) by apply strip_by_trimmed.
  assert (Hs : s = firstn k0 s ++ firstn m (c :: r) ++ skipn m (c :: r)).
  { rewrite firstn_skipn. rewrite <- Er. unfold rest.
    symmetry. apply firstn_skipn. }
  assert (Hstrip : strip (c :: r) = skipn m (c :: r)).
  { unfold strip, strip_by, lstrip_by. rewrite dropwhile_span. fold m.
    apply (rstrip_by_suffix_of_trimmed isspace
             (firstn k0 s ++ firstn m (c :: r))).
    rewrite <- app_assoc, <- Hs. exact Htr. }
  exists (firstn m (c :: r)). rewrite Hstrip.
  split; [|split; [lia|split; [|split; [|split]]]].
  - fold s. rewrite Hs at 1. unfold k0 at 1. rewrite span_hash_repeat.
    reflexivity.
  - destruct m; [lia|]. simpl. discriminate.
  - apply span_firstn.
  - rewrite <- Hstrip. destruct (strip (c :: r)); [discriminate|].
    discriminate.
  - rewrite <- Hstrip. apply strip_by_trimmed.
Qed.

(** X4. Each entry comes from its source line, and from nothing else: the
    trimmed line is [level] times [#], whitespace, then the text; the
    text is not empty, has no whitespace at its ends and no newline; the
    anchor is the slug of the text. *)
Theorem extracted_heading_source
    (isalnum : char -> bool) (lower : str -> str) (D : str) (d : Z)
    (h : Heading)
    (Hin : In h (extract_headings isalnum lower D d)) :
  exists l ws,
    1 <= line h
    /\ nth_error (split NL D) (line h - 1) = Some l
    /\ strip l = repeat 35%N (Z.to_nat (level h)) ++ ws ++ text h
    /\ ws <> [] /\ forallb isspace ws = true
    /\ text h <> [] /\ trimmed isspace (text h) /\ ~ In NL (text h)
    /\ anchor h = generate_anchor isalnum lower (text h).
Proof.
  unfold extract_headings in Hin.
  rewrite extract_loop_spec in Hin by apply split_no_sep.
  apply in_flat_map in Hin as [[n l] [Hc Hh]].
  apply In_combine_seq in Hc as [Hn Hl].
  unfold spec_entry in Hh. simpl fst in Hh. simpl snd in Hh.
  destruct (spec_heading_line l) as [[k t]|] eqn:E; [|destruct Hh].
  destruct (Z.of_nat k <=? d)%Z; [|destruct Hh].
  destruct Hh as [<-|[]]. simpl.
  destruct (spec_heading_line_shape l k t E)
    as [ws [Hs [Hk [Hws [Hsp [Ht Htr]]]]]].
  exists l, ws. rewrite Nat2Z.id.
  repeat split; try assumption; try apply Htr.
  intros Hnl. apply (spec_heading_line_In l t k NL E) in Hnl.
  assert (Hin : In l (split NL D)) by exact (nth_error_In _ _ Hl).
  exact (proj1 (Forall_forall _ _) (split_no_sep NL D) l Hin Hnl).
Qed.

Lemma extracted_heading_source_witness :
  exists l ws,
    1 <= 3
    /\ nth_error (split NL example_doc) (3 - 1) = Some l
    /\ strip l = repeat 35%N (Z.to_nat 2) ++ ws ++ py "Intro"
    /\ ws <> [] /\ forallb isspace ws = true
    /\ py "Intro" <> [] /\ trimmed isspace (py "Intro")
    /\ ~ In NL (py "Intro")
    /\ py "intro" = generate_anchor ascii_isalnum ascii_lower (py "Intro").
Proof.
  apply (extracted_heading_source ascii_isalnum ascii_lower example_doc 3
           (mkHeading 2 (py "Intro") (py "intro") 3)).
  right. left. reflexivity.
Defined.

(** Entries taken from a document hold no newline. *)
Lemma extract_headings_clean (isalnum : char -> bool) (lower : str -> str)
      (D : str) (d : Z) :
  Forall clean (extract_headings isalnum lower D d).
Proof.
  apply Forall_forall. intros h Hin.
  unfold extract_headings in Hin.
  rewrite extract_loop_spec in Hin by apply split_no_sep.
  apply in_flat_map in Hin as [[n l] [Hc Hh]].
  apply In_combine_seq in Hc as [_ Hl].
  unfold spec_entry in Hh. simpl fst in Hh. simpl snd in Hh.
  destruct (spec_heading_line l) as [[k t]|] eqn:E; [|destruct Hh].
  destruct (Z.of_nat k <=? d)%Z; [|destruct Hh].
  destruct Hh as [<-|[]]. split; simpl.
  - intros Hnl. apply (spec_heading_line_In l t k NL E) in Hnl.
    assert (Hin : In l (split NL D)) by exact (nth_error_In _ _ Hl).
    exact (proj1 (Forall_forall _ _) (split_no_sep NL D) l Hin Hnl).
  - apply generate_anchor_no_nl.
Qed.

(** ** What the locator returns *)

Lemma toc_end_from_bounds (lines : list str) (i e : nat) :
  i < length lines -> toc_end_from lines i = Some e ->
  i < e <= length lines.
Proof.
  intros Hi. unfold toc_end_from.
  destruct (scan_end lines i (i + 1) (skipn (i + 1) lines)) as [e'|] eqn:E.
  - intros H. injection H as <-.
    apply (scan_end_bounds lines i (i + 1) (skipn (i + 1) lines) e');
      [lia | | exact E].
    rewrite length_skipn. lia.
  - intros H. apply look_back_bounds in H; [|lia]. lia.
Qed.

Lemma toc_end_from_none_blank (lines : list str) (i k : nat) :
  toc_end_from lines i = None -> i < k < length lines ->
  nonblank (line_at lines k) = false.
Proof.
  intros Hn Hk. destruct (nonblank (line_at lines k)) eqn:E; [|reflexivity].
  destruct (toc_end_from_some lines i k Hk E) as [e [He _]]. congruence.
Qed.

Lemma nth_error_line_at (lines : list str) (k : nat) (l : str) :
  nth_error lines k = Some l -> line_at lines k = l.
Proof. intros H. unfold line_at. exact (nth_error_nth lines k [] H). Qed.

(** X5. The result of the locator, in all cases.  Without a recognised header
    line it is [(None, None)].  Otherwise the start is the index of the
    first such line; an end bound, when there is one, lies after the start
    and within the document; there is none exactly when only blank lines
    follow the header. *)
Theorem find_existing_toc_result (D : str) :
  let lines := split NL D in
  match find_existing_toc D with
  | (None, e) =>
      e = None /\ forall l, In l lines -> is_header_line l = false
  | (Some s, e) =>
      (exists l, nth_error lines s = Some l /\ is_header_line l = true)
      /\ (forall k l, k < s -> nth_error lines k = Some l ->
          is_header_line l = false)
      /\ (forall e', e = Some e' -> s < e' <= length lines)
      /\ (e = None <->
          forall k l, s < k -> nth_error lines k = Some l ->
                      nonblank l = false)
  end.
Proof.
  intros lines. pose proof (find_existing_toc_inv D) as Hinv.
  cbv zeta in Hinv. fold lines in Hinv.
  destruct Hinv as [[Hf Hno]|[pre [l [post [HL [Hpre [Hl Hf]]]]]]];
    rewrite Hf.
  - split; [reflexivity | exact Hno].
  - assert (Hlen : length pre < length lines).
    { rewrite HL, length_app. simpl. lia. }
    split; [|split; [|split]].
    + exists l. split; [|exact Hl].
      rewrite HL, nth_error_app2, Nat.sub_diag by lia. reflexivity.
    + intros k x Hk Hx. apply Hpre.
      rewrite HL, nth_error_app1 in Hx by lia. exact (nth_error_In _ _ Hx).
    + intros e' He. exact (toc_end_from_bounds lines (length pre) e' Hlen He).
    + split.
      * intros Hn k x Hk Hx.
        rewrite <- (nth_error_line_at lines k x Hx).
        apply (toc_end_from_none_blank lines (length pre) k Hn).
        split; [exact Hk|]. apply nth_error_Some. congruence.
      * intros Hb. rewrite HL. apply toc_end_from_blank.
        intros x Hx. apply In_nth_error in Hx as [m Hm].
        apply (Hb (length pre + S m) x); [lia|].
        rewrite HL, nth_error_app2 by lia.
        replace (length pre + S m - length pre) with (S m) by lia.
        exact Hm.
Qed.

(** ** The forward scan over a rendered block *)

Lemma blank_not_boundary (x : str) :
  nonblank x = false -> is_boundary x = false.
Proof.
  unfold nonblank, is_boundary. destruct (strip x); [reflexivity|].
  discriminate.
Qed.

Lemma list_item_not_boundary (x : str) :
  is_list_item x = true -> is_boundary x = false.
Proof.
  unfold is_list_item, is_boundary. destruct (strip x) as [|c t];
    [discriminate|].
  simpl. intros H. apply andb_true_iff in H as [H _].
  apply N.eqb_eq in H. subst. reflexivity.
Qed.

Lemma scan_end_cons (lines : list str) (i j : nat) (l : str)
      (rest : list str) :
  scan_end lines i j (l :: rest)
  = if is_boundary l then Some j
    else if (i + 1 <? j) && nonblank l && negb (is_list_item l)
            && negb (startswith (strip l) (py "  -"))
    then look_back lines (j - 1) (j - 1 - i)
    else scan_end lines i (S j) rest.
Proof. reflexivity. Qed.

(** Blank lines and list items let the scan go on. *)
Lemma scan_end_pass (lines : list str) (i : nat) (passes rest : list str)
      (j : nat) :
  (forall x, In x passes -> nonblank x = false \/ is_list_item x = true) ->
  scan_end lines i j (passes ++ rest)
  = scan_end lines i (j + length passes) rest.
Proof.
  revert j; induction passes as [|x passes IH]; intros j H.
  - simpl. rewrite Nat.add_0_r. reflexivity.
  - simpl app. rewrite scan_end_cons.
    destruct (H x (or_introl eq_refl)) as [Hx|Hx].
    + rewrite (blank_not_boundary x Hx), Hx, andb_false_r. simpl.
      rewrite IH by (intros y Hy; apply H; right; exact Hy).
      simpl length. f_equal. lia.
    + rewrite (list_item_not_boundary x Hx), Hx. simpl.
      rewrite andb_false_r. simpl.
      rewrite IH by (intros y Hy; apply H; right; exact Hy).
      simpl length. f_equal. lia.
Qed.

Lemma look_back_exact (lines : list str) (k cnt k' : nat) :
  cnt <= k -> k - cnt < k' <= k ->
  nonblank (line_at lines k') = true ->
  (forall m, k' < m <= k -> nonblank (line_at lines m) = false) ->
  look_back lines k cnt = Some (k' + 1).
Proof.
  revert k; induction cnt as [|cnt IH]; intros k Hc Hk Hnb Hbl; [lia|].
  simpl. destruct (Nat.eq_dec k' k) as [->|Hne].
  - unfold nonblank in Hnb. rewrite Hnb. reflexivity.
  - pose proof (Hbl k ltac:(lia)) as Hkb. unfold nonblank in Hkb.
    rewrite Hkb. apply IH; [lia | lia | exact Hnb |].
    intros m Hm. apply Hbl. lia.
Qed.

Lemma toc_entry_strip (h : Heading) :
  exists t, strip (toc_entry h) = 45%N :: t.
Proof.
  unfold toc_entry, strip, strip_by, lstrip_by. cbv zeta.
  rewrite str_mul_two_spaces.
  change (py "- " ++ py "[" ++ text h ++ py "](#" ++ anchor h ++ py ")")
    with (45%N :: 32%N :: py "[" ++ text h ++ py "](#" ++ anchor h ++ py ")").
  rewrite dropwhile_indent.
  destruct (rstrip_by_head isspace 45%N
              (32%N :: py "[" ++ text h ++ py "](#" ++ anchor h ++ py ")")
              eq_refl) as [t Ht].
  exists t. exact Ht.
Qed.

Lemma toc_entry_list_item (h : Heading) : is_list_item (toc_entry h) = true.
Proof.
  unfold is_list_item. destruct (toc_entry_strip h) as [t Ht].
  unfold str in *. rewrite Ht. destruct t; reflexivity.
Qed.

Lemma toc_entry_nonblank (h : Heading) : nonblank (toc_entry h) = true.
Proof.
  unfold nonblank. destruct (toc_entry_strip h) as [t Ht].
  unfold str in *. rewrite Ht. reflexivity.
Qed.

Lemma toc_lines_tail_pass (hs : list Heading) (x : str) :
  In x ([] :: map toc_entry hs ++ [[]]) ->
  nonblank x = false \/ is_list_item x = true.
Proof.
  intros [<-|H]; [left; reflexivity|].
  apply in_app_or in H as [H|[<-|[]]]; [|left; reflexivity].
  apply in_map_iff in H as [h [<- _]]. right. apply toc_entry_list_item.
Qed.

Lemma generate_toc_toc_lines (h : Heading) (hs : list Heading) :
  generate_toc (h :: hs) = join nl (toc_lines (h :: hs)).
Proof. reflexivity. Qed.

Lemma toc_lines_no_nl (hs : list Heading) :
  Forall clean hs -> no_nl (toc_lines hs).
Proof.
  intros Hc. unfold toc_lines, no_nl.
  constructor; [exact toc_header_no_nl|].
  constructor; [intros []|].
  apply Forall_app. split; [|exact no_nl_blank].
  apply Forall_map. eapply Forall_impl; [|exact Hc].
  exact toc_entry_no_nl.
Qed.

Lemma toc_lines_length (hs : list Heading) :
  length (toc_lines hs) = length hs + 3.
Proof.
  unfold toc_lines. simpl. rewrite length_app, length_map. simpl. lia.
Qed.

(** The end bound of a block followed by a level-1 or level-2 heading:
    the index of that heading. *)
Lemma toc_end_from_boundary (X : list str) (hd : str) (passes : list str)
      (b : str) (rest : list str) :
  (forall x, In x passes -> nonblank x = false \/ is_list_item x = true) ->
  is_boundary b = true ->
  toc_end_from (X ++ hd :: passes ++ b :: rest) (length X)
  = Some (length X + 1 + length passes).
Proof.
  intros Hp Hb. unfold toc_end_from.
  assert (Hsk : skipn (length X + 1) (X ++ hd :: passes ++ b :: rest)
                = passes ++ b :: rest).
  { rewrite skipn_app, skipn_all2 by lia.
    replace (length X + 1 - length X) with 1 by lia. reflexivity. }
  rewrite Hsk, scan_end_pass by exact Hp.
  rewrite scan_end_cons, Hb. reflexivity.
Qed.

(** The end bound of a block that closes the document: one past its last
    entry; the blank line that ends the rendering stays outside. *)
Lemma toc_end_from_rendered (h : Heading) (hs : list Heading) :
  toc_end_from (toc_lines (h :: hs)) 0 = Some (length (h :: hs) + 2).
Proof.
  unfold toc_end_from. set (lines := toc_lines (h :: hs)).
  assert (Hlen : length lines = length (h :: hs) + 3)
    by apply toc_lines_length.
  replace (skipn (0 + 1) lines)
    with (([] :: map toc_entry (h :: hs) ++ [[]]) ++ [])
    by (rewrite app_nil_r; reflexivity).
  rewrite scan_end_pass by apply toc_lines_tail_pass.
  cbn [scan_end].
  replace (length (h :: hs) + 2) with (length (h :: hs) + 1 + 1) by lia.
  apply look_back_exact.
  - lia.
  - lia.
  - unfold line_at, lines, toc_lines.
    change (toc_header :: [] :: map toc_entry (h :: hs) ++ [[]])
      with ([toc_header; []] ++ map toc_entry (h :: hs) ++ [[]]).
    rewrite app_nth2 by (simpl; lia).
    rewrite app_nth1 by (rewrite length_map; simpl; lia).
    replace (length (h :: hs) + 1 - length [toc_header; []])
      with (length hs) by (simpl; lia).
    rewrite (nth_indep _ [] (toc_entry h))
      by (rewrite length_map; simpl; lia).
    rewrite map_nth. apply toc_entry_nonblank.
  - intros m Hm. assert (m = length (h :: hs) + 2) as -> by lia.
    unfold line_at, lines, toc_lines.
    change (toc_header :: [] :: map toc_entry (h :: hs) ++ [[]])
      with ([toc_header; []] ++ map toc_entry (h :: hs) ++ [[]]).
    rewrite app_nth2 by (simpl; lia).
    rewrite app_nth2 by (rewrite length_map; simpl; lia).
    rewrite length_map.
    replace (length (h :: hs) + 2 - length [toc_header; []]
             - length (h :: hs)) with 0 by (simpl; lia).
    reflexivity.
Qed.

(** X6. Locating a rendered block on its own gives the header line as the
    start and one past the last entry as the end bound: the blank line
    that [generate_toc] appends is not part of the located block. *)
Theorem find_existing_toc_rendered (h : Heading) (hs : list Heading)
    (Hclean : Forall clean (h :: hs)) :
  find_existing_toc (generate_toc (h :: hs))
  = (Some 0, Some (length (h :: hs) + 2))
  /\ length (split NL (generate_toc (h :: hs))) = length (h :: hs) + 3.
Proof.
  rewrite generate_toc_toc_lines. unfold find_existing_toc.
  rewrite split_join;
    [|discriminate | exact (toc_lines_no_nl (h :: hs) Hclean)].
  split; [|apply toc_lines_length].
  change (toc_lines (h :: hs)) with ([] ++ toc_lines (h :: hs)) at 2.
  unfold toc_lines at 2.
  rewrite (find_loop_hit (toc_lines (h :: hs)) 0 [] toc_header
             ([] :: map toc_entry (h :: hs) ++ [[]]));
    [|intros x [] | exact toc_header_is_header].
  simpl length. simpl plus. rewrite toc_end_from_rendered. reflexivity.
Qed.

Lemma find_existing_toc_rendered_witness :
  find_existing_toc
    (generate_toc [mkHeading 1 (py "Title") (py "title") 1;
                   mkHeading 2 (py "Intro") (py "intro") 3])
  = (Some 0, Some (2 + 2))
  /\ length (split NL
               (generate_toc [mkHeading 1 (py "Title") (py "title") 1;
                              mkHeading 2 (py "Intro") (py "intro") 3]))
     = 2 + 3.
Proof.
  apply (find_existing_toc_rendered
           (mkHeading 1 (py "Title") (py "title") 1)
           [mkHeading 2 (py "Intro") (py "intro") 3]).
  repeat constructor; simpl; intuition discriminate.
Defined.

(** ** The frame of a splice *)

Lemma kept_no_nl (D : str) : no_nl (kept_before D) /\ no_nl (kept_after D).
Proof.
  unfold kept_before, kept_after.
  destruct (find_existing_toc D) as [[s|] [e|]]; split;
    auto using no_nl_app, no_nl_firstn, no_nl_skipn, no_nl_split, no_nl_blank.
Qed.

Lemma insert_or_update_toc_frame (D toc : str) :
  insert_or_update_toc D toc
  = join nl (kept_before D ++ split NL toc ++ kept_after D).
Proof.
  unfold insert_or_update_toc, kept_before, kept_after.
  destruct (find_existing_toc D) as [[s|] [e|]];
    rewrite <- ?app_assoc; reflexivity.
Qed.

Lemma frame_lines_ok (D toc : str) :
  kept_before D ++ split NL toc ++ kept_after D <> []
  /\ no_nl (kept_before D ++ split NL toc ++ kept_after D).
Proof.
  split.
  - intros H. apply app_eq_nil in H as [_ H].
    apply app_eq_nil in H as [H _]. exact (split_not_nil _ _ H).
  - destruct (kept_no_nl D) as [Hb Ha].
    auto using no_nl_app, no_nl_split.
Qed.

Lemma kept_before_no_header (D : str) (x : str) :
  In x (kept_before D) -> is_header_line x = false.
Proof.
  unfold kept_before.
  pose proof (find_existing_toc_inv D) as Hinv. cbv zeta in Hinv.
  assert (Hins : In x (firstn (insert_position (split NL D)) (split NL D)
                       ++ [[]]) -> is_header_line x = false).
  { intros H. apply in_app_or in H as [H|[<-|[]]]; [|reflexivity].
    exact (insert_position_no_header _ x H). }
  destruct (find_existing_toc D) as [[s|] [e|]] eqn:Ef; try exact Hins.
  destruct Hinv as [[Hn _]|[pre [l [post [HL [Hpre [_ Hf]]]]]]];
    [discriminate|].
  injection Hf as -> _. rewrite HL, firstn_app, firstn_all, Nat.sub_diag.
  simpl. rewrite app_nil_r. exact (Hpre x).
Qed.

Lemma find_existing_toc_bounds (D : str) (s e : nat) :
  find_existing_toc D = (Some s, Some e) ->
  s < e <= length (split NL D).
Proof.
  intros Hf. pose proof (find_existing_toc_inv D) as Hinv.
  cbv zeta in Hinv.
  destruct Hinv as [[Hn _]|[pre [l [post [HL [_ [_ Hf']]]]]]];
    [congruence|].
  rewrite Hf in Hf'. injection Hf' as -> He.
  apply toc_end_from_bounds; [|symmetry; exact He].
  rewrite HL, length_app. simpl. lia.
Qed.


(** ** Splicing again *)

Section SpliceAgain.

Variable D : str.
Variable h : Heading.
Variable hs : list Heading.
Variable b : str.
Variable rest : list str.

Hypothesis Hclean : Forall clean (h :: hs).
Hypothesis Hafter : kept_after D = b :: rest.
Hypothesis Hb : is_boundary b = true.

Lemma spliced_lines :
  split NL (insert_or_update_toc D (generate_toc (h :: hs)))
  = kept_before D ++ toc_lines (h :: hs) ++ b :: rest.
Proof.
  rewrite insert_or_update_toc_frame.
  destruct (frame_lines_ok D (generate_toc (h :: hs))) as [Hne Hnl].
  rewrite split_join by assumption.
  rewrite generate_toc_clean_lines by exact Hclean.
  rewrite Hafter. reflexivity.
Qed.

Lemma spliced_located :
  find_existing_toc (insert_or_update_toc D (generate_toc (h :: hs)))
  = (Some (length (kept_before D)),
     Some (length (kept_before D) + length (toc_lines (h :: hs)))).
Proof.
  unfold find_existing_toc. rewrite spliced_lines.
  assert (HL : kept_before D ++ toc_lines (h :: hs) ++ b :: rest
               = kept_before D
                 ++ toc_header
                    :: ([] :: map toc_entry (h :: hs) ++ [[]]) ++ b :: rest)
    by reflexivity.
  rewrite HL.
  rewrite (find_loop_hit _ 0 (kept_before D) toc_header
             (([] :: map toc_entry (h :: hs) ++ [[]]) ++ b :: rest)
             (kept_before_no_header D) toc_header_is_header).
  rewrite Nat.add_0_l. f_equal.
  etransitivity;
    [exact (toc_end_from_boundary (kept_before D) toc_header
              ([] :: map toc_entry (h :: hs) ++ [[]]) b rest
              (toc_lines_tail_pass (h :: hs)) Hb)|].
  f_equal. rewrite toc_lines_length. simpl length.
  rewrite length_app, length_map. simpl. lia.
Qed.

Lemma spliced_kept :
  kept_before (insert_or_update_toc D (generate_toc (h :: hs)))
  = kept_before D
  /\ kept_after (insert_or_update_toc D (generate_toc (h :: hs)))
     = b :: rest.
Proof.
  unfold kept_before at 1, kept_after at 1.
  rewrite spliced_located, spliced_lines. split.
  - rewrite firstn_app, firstn_all, Nat.sub_diag. simpl.
    apply app_nil_r.
  - rewrite app_assoc, skipn_app.
    rewrite skipn_all2 by (rewrite length_app; lia).
    rewrite length_app.
    replace (_ - _) with 0 by lia. reflexivity.
Qed.

Lemma spliced_overwrite (toc2 : str) :
  insert_or_update_toc (insert_or_update_toc D (generate_toc (h :: hs))) toc2
  = insert_or_update_toc D toc2.
Proof.
  rewrite (insert_or_update_toc_frame
             (insert_or_update_toc D (generate_toc (h :: hs)))).
  destruct spliced_kept as [-> ->].
  rewrite (insert_or_update_toc_frame D toc2), Hafter. reflexivity.
Qed.

End SpliceAgain.

(** X8. When the lines kept behind the block begin with a level-1 or level-2
    heading, a spliced block is found again exactly where it was put, and
    a later splice overwrites it: splicing [toc2] after the rendering of
    [h :: hs] gives what splicing [toc2] alone gives.  In particular
    splicing the same rendering twice changes nothing the second time.
    The rendered headings hold no newline in text or anchor, as every
    extracted heading does. *)
Theorem splice_overwrites
    (D : str) (h : Heading) (hs : list Heading) (b : str) (rest : list str)
    (Hclean : Forall clean (h :: hs))
    (Hafter : kept_after D = b :: rest)
    (Hb : is_boundary b = true) :
  let D1 := insert_or_update_toc D (generate_toc (h :: hs)) in
  find_existing_toc D1
  = (Some (length (kept_before D)),
     Some (length (kept_before D) + length (h :: hs) + 3))
  /\ (forall toc2,
        insert_or_update_toc D1 toc2 = insert_or_update_toc D toc2)
  /\ insert_or_update_toc D1 (generate_toc (h :: hs)) = D1.
Proof.
  intros D1. split; [|split].
  - unfold D1. rewrite (spliced_located D h hs b rest Hclean Hafter Hb).
    rewrite toc_lines_length. f_equal. f_equal. lia.
  - intros toc2. exact (spliced_overwrite D h hs b rest Hclean Hafter Hb toc2).
  - exact (spliced_overwrite D h hs b rest Hclean Hafter Hb _).
Qed.

Lemma splice_overwrites_witness :
  let D := join nl [py "# T"; []; py "## A"; py "text"] in
  let D1 := insert_or_update_toc D
              (generate_toc [mkHeading 2 (py "A") (py "a") 3]) in
  find_existing_toc D1 = (Some (length (kept_before D)),
                          Some (length (kept_before D) + 1 + 3))
  /\ (forall toc2,
        insert_or_update_toc D1 toc2 = insert_or_update_toc D toc2)
  /\ insert_or_update_toc D1
       (generate_toc [mkHeading 2 (py "A") (py "a") 3]) = D1.
Proof.
  apply (splice_overwrites
           (join nl [py "# T"; []; py "## A"; py "text"])
           (mkHeading 2 (py "A") (py "a") 3) []
           (py "## A") [py "text"]).
  - repeat constructor; simpl; intuition discriminate.
  - reflexivity.
  - reflexivity.
Defined.

(** X9. A title stays on top: when the first line of the document starts
    with ["# "], it is still the first line after any splice. *)
Theorem title_stays_first
    (D toc l0 : str) (rest : list str)
    (Hlines : split NL D = l0 :: rest)
    (Htitle : startswith l0 (py "# ") = true) :
  exists rest', split NL (insert_or_update_toc D toc) = l0 :: rest'.
Proof.
  rewrite insert_or_update_toc_frame.
  destruct (frame_lines_ok D toc) as [Hne Hnl].
  rewrite split_join by assumption.
  assert (Hk : exists k, kept_before D = l0 :: k).
  { unfold kept_before.
    pose proof (find_existing_toc_inv D) as Hinv. cbv zeta in Hinv.
    assert (Hins : exists k,
               firstn (insert_position (split NL D)) (split NL D) ++ [[]]
               = l0 :: k).
    { rewrite Hlines. unfold insert_position. rewrite Htitle.
      change (skipn 1 (l0 :: rest)) with rest.
      pose proof (skip_blank_facts rest 1) as [Hp _].
      destruct (skip_blank 1 rest) as [|p]; [lia|].
      simpl. eauto. }
    destruct (find_existing_toc D) as [[s|] [e|]] eqn:Ef; try exact Hins.
    destruct Hinv as [[Hn _]|[pre [l [post [HL [_ [Hl Hf]]]]]]];
      [discriminate|].
    injection Hf as -> _. rewrite HL, firstn_app, firstn_all, Nat.sub_diag.
    simpl. rewrite app_nil_r. rewrite Hlines in HL.
    destruct pre as [|x pre].
    - injection HL as <- _.
      rewrite (title_not_header l0 Htitle) in Hl. discriminate.
    - injection HL as <- _. eauto. }
  destruct Hk as [k ->]. simpl. eauto.
Qed.

Lemma title_stays_first_witness :
  exists rest',
    split NL (insert_or_update_toc
                (join nl [py "# T"; py "## TOC"; py "- old"; py "## A"])
                (py "## TOC"))
    = py "# T" :: rest'.
Proof.
  apply (title_stays_first
           (join nl [py "# T"; py "## TOC"; py "- old"; py "## A"])
           (py "## TOC") (py "# T") [py "## TOC"; py "- old"; py "## A"]).
  - reflexivity.
  - reflexivity.
Defined.

(** ** Running the pipeline again *)

Section Entries.

Variable isalnum : char -> bool.
Variable lower : str -> str.

Lemma entries_line_free (d : Z) (n m : nat) (ls : list str) :
  entries_of isalnum lower d n ls = entries_of isalnum lower d m ls.
Proof.
  unfold entries_of.
  assert (H : forall k, map toc_entry (extract_loop isalnum lower d k ls)
                        = map toc_entry (extract_loop isalnum lower d 0 ls)).
  { intros k. change k with (0 + k).
    rewrite extract_loop_shift, map_map. reflexivity. }
  rewrite (H n), (H m). reflexivity.
Qed.

Lemma entries_app (d : Z) (n : nat) (xs ys : list str) :
  entries_of isalnum lower d n (xs ++ ys)
  = entries_of isalnum lower d n xs ++ entries_of isalnum lower d n ys.
Proof.
  unfold entries_of. rewrite extract_loop_app, map_app. f_equal.
  apply entries_line_free.
Qed.

Lemma heading_of_toc_entry (d : Z) (n : nat) (h : Heading) :
  heading_of_line isalnum lower d n (toc_entry h) = [].
Proof.
  unfold heading_of_line. destruct (toc_entry_strip h) as [t Ht].
  unfold str in *. rewrite Ht. reflexivity.
Qed.

Lemma entries_of_entries (d : Z) (n : nat) (hs : list Heading) :
  entries_of isalnum lower d n (map toc_entry hs) = [].
Proof.
  unfold entries_of. revert n. induction hs as [|h hs IH]; intros n;
    [reflexivity|].
  simpl. rewrite heading_of_toc_entry. simpl. apply IH.
Qed.

(** The headings found in a rendered block do not depend on what the
    block lists: only its header line can be a heading. *)
Lemma entries_toc_lines (d : Z) (n : nat) (hs : list Heading) :
  entries_of isalnum lower d n (toc_lines hs)
  = entries_of isalnum lower d n [toc_header].
Proof.
  unfold toc_lines.
  change (toc_header :: [] :: map toc_entry hs ++ [[]])
    with ([toc_header] ++ [[]] ++ map toc_entry hs ++ [[]]).
  rewrite !entries_app, entries_of_entries.
  change (entries_of isalnum lower d n [[]]) with (@nil str).
  rewrite app_nil_r. reflexivity.
Qed.

Lemma entries_header_shallow (d : Z) (n : nat) :
  (d < 2)%Z -> entries_of isalnum lower d n [toc_header] = [].
Proof.
  intros Hd. unfold entries_of. simpl. rewrite app_nil_r.
  unfold heading_of_line.
  assert (re_match heading_re true (strip toc_header)
          = Some [py "##"; py " "; [30446%N; 27425%N]]) as ->
      by (vm_compute; reflexivity).
  assert ((Z.of_nat (length (py "##")) <=? d)%Z = false) as ->
      by (apply Z.leb_gt; simpl; lia).
  reflexivity.
Qed.

Lemma generate_toc_entries (hs1 hs2 : list Heading) :
  map toc_entry hs1 = map toc_entry hs2 ->
  generate_toc hs1 = generate_toc hs2.
Proof.
  intros H. destruct hs1 as [|h1 hs1], hs2 as [|h2 hs2];
    try discriminate; [reflexivity|].
  unfold generate_toc. rewrite H. reflexivity.
Qed.

Lemma extract_headings_entries (D : str) (d : Z) :
  map toc_entry (extract_headings isalnum lower D d)
  = entries_of isalnum lower d 1 (split NL D).
Proof. reflexivity. Qed.

(** Two documents with the same frame around a rendered block list the
    same entries. *)
Lemma entries_same_frame (d : Z) (X Y : list str) (hsA hsB : list Heading) :
  entries_of isalnum lower d 1 (X ++ toc_lines hsA ++ Y)
  = entries_of isalnum lower d 1 (X ++ toc_lines hsB ++ Y).
Proof.
  rewrite !entries_app, !entries_toc_lines. reflexivity.
Qed.

Lemma next_content_cons (D : str) (d : Z) (h : Heading) (hs : list Heading) :
  extract_headings isalnum lower D d = h :: hs ->
  next_content isalnum lower D d
  = insert_or_update_toc D (generate_toc (h :: hs)).
Proof. intros H. unfold next_content. rewrite H. reflexivity. Qed.

Lemma next_content_nil (D : str) (d : Z) :
  extract_headings isalnum lower D d = [] ->
  next_content isalnum lower D d = D.
Proof. intros H. unfold next_content. rewrite H. reflexivity. Qed.

(** A document that holds the rendering of its own headings, in front of
    a level-1 or level-2 heading, is left alone. *)
Lemma next_content_fixed (D0 : str) (d : Z) (h : Heading) (hs : list Heading)
      (b : str) (rest : list str) :
  Forall clean (h :: hs) ->
  kept_after D0 = b :: rest -> is_boundary b = true ->
  let D2 := insert_or_update_toc D0 (generate_toc (h :: hs)) in
  map toc_entry (extract_headings isalnum lower D2 d)
  = map toc_entry (h :: hs) ->
  next_content isalnum lower D2 d = D2.
Proof.
  intros Hc Ha Hb D2 He.
  destruct (extract_headings isalnum lower D2 d) as [|h2 hs2] eqn:E2;
    [discriminate|].
  rewrite (next_content_cons D2 d h2 hs2 E2).
  rewrite (generate_toc_entries (h2 :: hs2) (h :: hs) He).
  exact (spliced_overwrite D0 h hs b rest Hc Ha Hb _).
Qed.

Lemma stabilises_core (D : str) (d : Z) (b : str) (rest : list str) :
  kept_after D = b :: rest -> is_boundary b = true ->
  let step := fun c => next_content isalnum lower c d in
  step (step (step D)) = step (step D).
Proof.
  intros Ha Hb step. unfold step.
  destruct (extract_headings isalnum lower D d) as [|h0 hs0] eqn:E0.
  { rewrite !(next_content_nil D d E0). reflexivity. }
  rewrite (next_content_cons D d h0 hs0 E0).
  assert (Hc0 : Forall clean (h0 :: hs0)).
  { rewrite <- E0. apply extract_headings_clean. }
  set (D1 := insert_or_update_toc D (generate_toc (h0 :: hs0))).
  destruct (extract_headings isalnum lower D1 d) as [|h1 hs1] eqn:E1.
  { rewrite !(next_content_nil D1 d E1). reflexivity. }
  rewrite (next_content_cons D1 d h1 hs1 E1).
  assert (Hc1 : Forall clean (h1 :: hs1)).
  { rewrite <- E1. apply extract_headings_clean. }
  unfold D1.
  rewrite (spliced_overwrite D h0 hs0 b rest Hc0 Ha Hb).
  apply (next_content_fixed D d h1 hs1 b rest Hc1 Ha Hb).
  rewrite extract_headings_entries.
  rewrite (spliced_lines D h1 hs1 b rest Hc1 Ha).
  rewrite (entries_same_frame d (kept_before D) (b :: rest)
             (h1 :: hs1) (h0 :: hs0)).
  rewrite <- (spliced_lines D h0 hs0 b rest Hc0 Ha).
  fold D1. rewrite <- extract_headings_entries, E1. reflexivity.
Qed.

Lemma stabilises_shallow_core (D : str) (d : Z) (b : str) (rest : list str) :
  (forall s e, find_existing_toc D <> (Some s, Some e)) ->
  kept_after D = b :: rest -> is_boundary b = true -> (d < 2)%Z ->
  let step := fun c => next_content isalnum lower c d in
  step (step D) = step D.
Proof.
  intros Hnone Ha Hb Hd step. unfold step.
  destruct (extract_headings isalnum lower D d) as [|h0 hs0] eqn:E0.
  { rewrite !(next_content_nil D d E0). reflexivity. }
  rewrite (next_content_cons D d h0 hs0 E0).
  assert (Hc0 : Forall clean (h0 :: hs0)).
  { rewrite <- E0. apply extract_headings_clean. }
  apply (next_content_fixed D d h0 hs0 b rest Hc0 Ha Hb).
  rewrite extract_headings_entries.
  rewrite (spliced_lines D h0 hs0 b rest Hc0 Ha).
  rewrite <- E0, extract_headings_entries.
  rewrite !entries_app, entries_toc_lines.
  rewrite (entries_header_shallow d 1 Hd). simpl app.
  rewrite <- Ha. unfold kept_before, kept_after.
  assert (Hsplit : entries_of isalnum lower d 1 (split NL D)
                   = entries_of isalnum lower d 1
                       (firstn (insert_position (split NL D)) (split NL D))
                     ++ entries_of isalnum lower d 1
                          (skipn (insert_position (split NL D))
                             (split NL D))).
  { rewrite <- entries_app, firstn_skipn. reflexivity. }
  destruct (find_existing_toc D) as [[s|] [e|]];
    [exfalso; exact (Hnone s e eq_refl) | | |];
    rewrite entries_app;
    change (entries_of isalnum lower d 1 [[]]) with (@nil str);
    rewrite app_nil_r; symmetry; exact Hsplit.
Qed.

End Entries.

(** X10. When the lines kept behind the block begin with a level-1 or level-2
    heading, repeated runs settle: from the second run on, a further run
    changes nothing (a first run may still add the entry of the block's own
    header, which is a level-2 heading). *)
Theorem next_content_stabilises
    (isalnum : char -> bool) (lower : str -> str) (D : str) (d : Z)
    (b : str) (rest : list str)
    (Hafter : kept_after D = b :: rest)
    (Hb : is_boundary b = true) :
  next_content isalnum lower
    (next_content isalnum lower (next_content isalnum lower D d) d) d
  = next_content isalnum lower (next_content isalnum lower D d) d.
Proof. exact (stabilises_core isalnum lower D d b rest Hafter Hb). Qed.

Lemma next_content_stabilises_witness :
  next_content ascii_isalnum ascii_lower
    (next_content ascii_isalnum ascii_lower
       (next_content ascii_isalnum ascii_lower example_doc 3) 3) 3
  = next_content ascii_isalnum ascii_lower
      (next_content ascii_isalnum ascii_lower example_doc 3) 3.
Proof.
  apply (next_content_stabilises ascii_isalnum ascii_lower example_doc 3
           (py "## Intro") [py "## Details"; py "### Sub"; []]).
  - reflexivity.
  - reflexivity.
Defined.

(** X11. At a depth below 2 the header of the block is no entry, and one run
    is enough: when no block is found in the document and the line at the
    insertion point is a level-1 or level-2 heading, the second run
    changes nothing. *)
Theorem next_content_idempotent_shallow
    (isalnum : char -> bool) (lower : str -> str) (D : str) (d : Z)
    (b : str) (rest : list str)
    (Hnone : forall s e, find_existing_toc D <> (Some s, Some e))
    (Hafter : kept_after D = b :: rest)
    (Hb : is_boundary b = true)
    (Hd : (d < 2)%Z) :
  next_content isalnum lower (next_content isalnum lower D d) d
  = next_content isalnum lower D d.
Proof.
  exact (stabilises_shallow_core isalnum lower D d b rest Hnone Hafter Hb Hd).
Qed.

Lemma next_content_idempotent_shallow_witness :
  let D := join nl [py "# Title"; []; py "# Part one"; py "text"] in
  next_content ascii_isalnum ascii_lower
    (next_content ascii_isalnum ascii_lower D 1) 1
  = next_content ascii_isalnum ascii_lower D 1.
Proof.
  apply (next_content_idempotent_shallow ascii_isalnum ascii_lower
           (join nl [py "# Title"; []; py "# Part one"; py "text"]) 1
           (py "# Part one") [py "text"]).
  - intros s e H. vm_compute in H. discriminate H.
  - reflexivity.
  - reflexivity.
  - reflexivity.
Defined.

(** ** Headers are not duplicated when a block is found *)

Lemma header_count_In (ls : list str) (l : str) :
  In l ls -> is_header_line l = true -> 1 <= header_count ls.
Proof.
  intros Hin Hl. apply in_split in Hin as [a [b ->]].
  rewrite header_count_app. change (l :: b) with ([l] ++ b).
  rewrite header_count_app. unfold header_count at 2. simpl.
  rewrite Hl. simpl. lia.
Qed.

(** X12. Splicing a rendered block adds one recognised header line when no
    block is found, and none when a block is found and replaced.  The
    rendered headings hold no newline in text or anchor, as every
    extracted heading does. *)
Theorem splice_header_count
    (D : str) (h : Heading) (hs : list Heading)
    (Hclean : Forall clean (h :: hs)) :
  let before := header_count (split NL D) in
  let after :=
    header_count
      (split NL (insert_or_update_toc D (generate_toc (h :: hs)))) in
  match find_existing_toc D with
  | (Some _, Some _) => after <= before
  | _ => after = before + 1
  end.
Proof.
  intros before after. unfold after, before.
  rewrite insert_or_update_toc_frame.
  destruct (frame_lines_ok D (generate_toc (h :: hs))) as [Hne Hnl].
  rewrite split_join by assumption.
  rewrite !header_count_app, (header_count_toc_clean h hs Hclean).
  rewrite (header_count_none (kept_before D))
    by apply kept_before_no_header.
  unfold kept_after.
  pose proof (find_existing_toc_inv D) as Hinv. cbv zeta in Hinv.
  assert (Hins : 0 + (1 + header_count
                            (skipn (insert_position (split NL D))
                               (split NL D)))
                 = header_count (split NL D) + 1).
  { assert (E : header_count (split NL D)
                 = header_count (firstn (insert_position (split NL D))
                                   (split NL D))
                   + header_count (skipn (insert_position (split NL D))
                                     (split NL D)))
      by (rewrite <- header_count_app, firstn_skipn; reflexivity).
    rewrite (header_count_none (firstn _ _)) in E
      by apply insert_position_no_header.
    lia. }
  destruct (find_existing_toc D) as [[s|] [e|]] eqn:Ef; try exact Hins.
  pose proof (find_existing_toc_bounds D s e Ef) as Hb.
  destruct Hinv as [[Hn _]|[pre [l [post [HL [_ [Hl Hf]]]]]]];
    [discriminate|].
  injection Hf as -> _.
  assert (E : header_count (split NL D)
               = header_count (firstn e (split NL D))
                 + header_count (skipn e (split NL D)))
    by (rewrite <- header_count_app, firstn_skipn; reflexivity).
  assert (1 <= header_count (firstn e (split NL D))); [|lia].
  apply (header_count_In _ l); [|exact Hl].
  rewrite HL, firstn_app. apply in_or_app. right.
  destruct (e - length pre) eqn:Ee; [lia|]. left. reflexivity.
Qed.

Lemma splice_header_count_witness :
  let D := join nl [py "# T"; py "## TOC"; py "- old"; py "## A"] in
  let before := header_count (split NL D) in
  let after :=
    header_count
      (split NL (insert_or_update_toc D
                   (generate_toc [mkHeading 2 (py "A") (py "a") 4]))) in
  match find_existing_toc D with
  | (Some _, Some _) => after <= before
  | _ => after = before + 1
  end.
Proof.
  apply (splice_header_count
           (join nl [py "# T"; py "## TOC"; py "- old"; py "## A"])
           (mkHeading 2 (py "A") (py "a") 4) []).
  repeat constructor; simpl; intuition discriminate.
Defined.

(** ** What [process_note] does to the remote *)

(** X13. The remote state changes only through one call of
    [update_note_content], made with the fetched content as the base and
    its spliced version as the new content; never in a dry run, and never
    when the note has no heading.  At most one update is attempted. *)
Theorem process_note_effects
    (isalnum : char -> bool) (lower : str -> str) (world : Type)
    (extract_note_id_from_url : str -> option str)
    (get_note_content : str -> world -> option (str * str))
    (update_note_content : str -> str -> str -> world -> option world)
    (update_error url : str) (d : Z) (dry_run : bool) (w : world) :
  let r := process_note isalnum lower extract_note_id_from_url
             get_note_content update_note_content update_error
             url d dry_run w in
  (snd (fst r) = w
   \/ exists note_id internal_id D,
        extract_note_id_from_url url = Some note_id
        /\ get_note_content note_id w = Some (internal_id, D)
        /\ dry_run = false
        /\ extract_headings isalnum lower D d <> []
        /\ update_note_content internal_id (next_content isalnum lower D d)
             D w = Some (snd (fst r)))
  /\ (forall id new_content base, In (Update id new_content base) (snd r) ->
      dry_run = false
      /\ exists note_id,
           extract_note_id_from_url url = Some note_id
           /\ get_note_content note_id w = Some (id, base)
           /\ new_content = next_content isalnum lower base d
           /\ new_content = insert_or_update_toc base
                              (generate_toc
                                 (extract_headings isalnum lower base d)))
  /\ length (filter is_update (snd r)) <= 1.
Proof.
  intros r. unfold r, process_note.
  destruct (extract_note_id_from_url url) as [note_id|] eqn:Eid;
    [|simpl; split; [left; reflexivity | split; [intros ? ? ? [] | lia]]].
  destruct (get_note_content note_id w) as [[internal_id D]|] eqn:Eget;
    [|simpl; split; [left; reflexivity | split; [intros ? ? ? [] | lia]]].
  unfold next_content.
  destruct (extract_headings isalnum lower D d) as [|h hs] eqn:Ehs;
    [simpl; split; [left; reflexivity | split; [intros ? ? ? [] | lia]]|].
  destruct dry_run.
  - simpl. split; [left; reflexivity|]. split; [|lia].
    intros id nc base [H|[]]. discriminate H.
  - destruct (update_note_content internal_id
                (insert_or_update_toc D (generate_toc (h :: hs))) D w)
      as [w'|] eqn:Eup; simpl.
    + split; [|split; [|lia]].
      * right. exists note_id, internal_id, D. rewrite Ehs.
        repeat split; try assumption. discriminate.
      * intros id nc base [H|[H|[]]]; [discriminate H|].
        injection H as <- <- <-. split; [reflexivity|].
        exists note_id. rewrite Ehs. repeat split; assumption.
    + split; [left; reflexivity|]. split; [|lia].
      intros id nc base [H|[H|[]]]; [discriminate H|].
      injection H as <- <- <-. split; [reflexivity|].
      exists note_id. rewrite Ehs. repeat split; assumption.
Qed.

(** ** The note id of a URL *)

Lemma startswith_nil (s : str) : startswith s [] = true.
Proof. destruct s; reflexivity. Qed.

Lemma startswith_app (p s : str) : startswith (p ++ s) p = true.
Proof.
  induction p as [|c p IH]; [apply startswith_nil|].
  simpl. rewrite N.eqb_refl. exact IH.
Qed.

Lemma contains_unfold (s sub : str) :
  contains s sub
  = startswith s sub
    || match s with
       | [] => false
       | _ :: r => contains r sub
       end.
Proof. destruct s; reflexivity. Qed.

Lemma contains_app (pre sep s : str) : contains (pre ++ sep ++ s) sep = true.
Proof.
  induction pre as [|c pre IH].
  - simpl app. rewrite contains_unfold, startswith_app. reflexivity.
  - simpl app. rewrite contains_unfold, IH. apply orb_true_r.
Qed.

Lemma split_str_go_skip (sep : str) (k : nat) (cur s : str) :
  split_str_go sep k cur s = split_str_go sep 0 cur (skipn k s).
Proof.
  revert s; induction k as [|k IH]; intros s; [reflexivity|].
  destruct s as [|c r]; [reflexivity|]. simpl. apply IH.
Qed.

Lemma split_str_go_nomatch (sep cur s : str) :
  contains s sep = false -> split_str_go sep 0 cur s = [rev cur ++ s].
Proof.
  revert cur; induction s as [|c r IH]; intros cur H.
  - simpl. rewrite app_nil_r. reflexivity.
  - rewrite contains_unfold in H. apply orb_false_iff in H as [Hs Hr].
    cbn [split_str_go]. rewrite Hs, (IH (c :: cur) Hr).
    simpl. rewrite <- app_assoc. reflexivity.
Qed.

Lemma split_str_go_scan (sep cur pre rest : str) :
  (forall k, k < length pre ->
             startswith (skipn k (pre ++ rest)) sep = false) ->
  split_str_go sep 0 cur (pre ++ rest)
  = split_str_go sep 0 (rev pre ++ cur) rest.
Proof.
  revert cur; induction pre as [|c pre IH]; intros cur H; [reflexivity|].
  simpl app. cbn [split_str_go].
  pose proof (H 0 ltac:(simpl; lia)) as H0.
  change (skipn 0 ((c :: pre) ++ rest)) with (c :: pre ++ rest) in H0.
  rewrite H0.
  rewrite IH.
  - simpl. rewrite <- app_assoc. reflexivity.
  - intros k Hk. apply (H (S k)). simpl. lia.
Qed.

Lemma split_str_go_not_nil (sep : str) (k : nat) (cur s : str) :
  split_str_go sep k cur s <> [].
Proof.
  revert k cur; induction s as [|c r IH]; intros k cur;
    [intros H; discriminate H|].
  cbn [split_str_go]. destruct k; [|apply IH].
  destruct (startswith (c :: r) sep); [intros H; discriminate H | apply IH].
Qed.

(** The last piece, when the last occurrence of the separator is found
    by the scan. *)
Lemma split_str_last (sep pre suf : str) :
  sep <> [] ->
  (forall k, k < length pre ->
             startswith (skipn k (pre ++ sep ++ suf)) sep = false) ->
  contains suf sep = false ->
  last (split_str sep (pre ++ sep ++ suf)) [] = suf.
Proof.
  intros Hsep Hpre Hsuf. unfold split_str.
  rewrite split_str_go_scan by exact Hpre.
  destruct sep as [|c sep]; [congruence|].
  simpl app. cbn [split_str_go].
  change (c :: sep ++ suf) with ((c :: sep) ++ suf).
  rewrite startswith_app.
  replace (length (c :: sep) - 1) with (length sep) by (simpl; lia).
  rewrite split_str_go_skip.
  rewrite skipn_app, skipn_all, Nat.sub_diag. simpl.
  rewrite (split_str_go_nomatch (c :: sep) [] suf Hsuf). reflexivity.
Qed.

Lemma hd_split_prefix (sep : char) (a b : str) :
  ~ In sep a -> hd [] (split sep (a ++ b)) = a ++ hd [] (split sep b).
Proof.
  intros Ha. destruct (split_cons_shape sep b) as [l [ls Hb]].
  induction a as [|c a IH]; [reflexivity|].
  simpl. destruct (N.eqb c sep) eqn:E.
  - apply N.eqb_eq in E. subst. exfalso. apply Ha. left. reflexivity.
  - assert (Ha' : ~ In sep a) by (intros H; apply Ha; right; exact H).
    specialize (IH Ha').
    destruct (split_cons_shape sep (a ++ b)) as [l' [ls' Hab]].
    rewrite Hab in *. simpl in *. rewrite IH. reflexivity.
Qed.

Lemma hd_split_no_sep (sep : char) (s : str) :
  ~ In sep (hd [] (split sep s)).
Proof.
  destruct (split_cons_shape sep s) as [l [ls H]].
  pose proof (split_no_sep sep s) as Hall. rewrite H in *.
  inversion Hall; assumption.
Qed.

Lemma hd_split_In (sep : char) (s : str) (c : char) :
  In c (hd [] (split sep s)) -> In c s.
Proof.
  destruct (split_cons_shape sep s) as [l [ls H]]. intros Hc.
  apply (split_In sep s (hd [] (split sep s)) c); [|exact Hc].
  rewrite H. left. reflexivity.
Qed.

Section UrlProperties.

Variable url_path : str -> str.
Variable isdigit_char : char -> bool.

Lemma cut_note_id (id tail : str) :
  ~ In 47%N id -> ~ In 63%N id ->
  tail = [] \/ (exists t, tail = 47%N :: t) \/ (exists t, tail = 63%N :: t) ->
  hd [] (split 63%N (hd [] (split 47%N (id ++ tail)))) = id.
Proof.
  intros H47 H63 Ht. rewrite (hd_split_prefix 47%N id tail H47).
  destruct Ht as [->|[[t ->]|[t ->]]].
  - simpl. rewrite app_nil_r.
    rewrite <- (app_nil_r id) at 1.
    rewrite (hd_split_prefix 63%N id [] H63). simpl. apply app_nil_r.
  - simpl. rewrite app_nil_r.
    rewrite <- (app_nil_r id) at 1.
    rewrite (hd_split_prefix 63%N id [] H63). simpl. apply app_nil_r.
  - assert (exists x, hd [] (split 47%N (63%N :: t)) = 63%N :: x) as [x ->].
    { destruct (split_cons_shape 47%N t) as [l [ls E]].
      exists l. simpl. rewrite E. reflexivity. }
    rewrite (hd_split_prefix 63%N id _ H63). simpl. apply app_nil_r.
Qed.

Lemma isdigit_no_char (c : char) (id : str) :
  isdigit_char c = false -> str_isdigit isdigit_char id = true -> ~ In c id.
Proof.
  intros Hc Hid Hin. unfold str_isdigit in Hid.
  apply andb_true_iff in Hid as [_ Hall].
  rewrite forallb_forall in Hall. rewrite (Hall c Hin) in Hc. discriminate.
Qed.

End UrlProperties.

(** X14. A path with a [/notes/] segment followed by digits gives those
    digits: the id ends at the next [/] or [?] or at the end of the path.
    (The segment must be the one the left-to-right search of [split]
    finds last: no other occurrence of [/notes/] starts before it or
    comes after it.) *)
Theorem extract_note_id_found
    (url_path : str -> str) (isdigit_char : char -> bool)
    (url pre id tail : str)
    (Hslash : isdigit_char 47%N = false)
    (Hquery : isdigit_char 63%N = false)
    (Hpath : url_path url = pre ++ py "/notes/" ++ id ++ tail)
    (Hpre : forall k, k < length pre ->
              startswith (skipn k (url_path url)) (py "/notes/") = false)
    (Hsuf : contains (id ++ tail) (py "/notes/") = false)
    (Hid : str_isdigit isdigit_char id = true)
    (Htail : tail = [] \/ (exists t, tail = 47%N :: t)
             \/ (exists t, tail = 63%N :: t)) :
  extract_note_id_from_url url_path isdigit_char url = Some id.
Proof.
  unfold extract_note_id_from_url. cbv zeta.
  rewrite Hpath in *. rewrite contains_app.
  rewrite (split_str_last (py "/notes/") pre (id ++ tail));
    [|discriminate | exact Hpre | exact Hsuf].
  rewrite (cut_note_id id tail
             (isdigit_no_char isdigit_char 47%N id Hslash Hid)
             (isdigit_no_char isdigit_char 63%N id Hquery Hid) Htail).
  rewrite Hid. reflexivity.
Qed.

Lemma extract_note_id_found_witness :
  extract_note_id_from_url (fun url => url) ascii_isdigit
    (py "/shared/notes/123/edit") = Some (py "123").
Proof.
  apply (extract_note_id_found (fun url => url) ascii_isdigit
           (py "/shared/notes/123/edit") (py "/shared") (py "123")
           (py "/edit")).
  - reflexivity.
  - reflexivity.
  - reflexivity.
  - intros k Hk.
    do 7 (destruct k as [|k]; [reflexivity|]). simpl in Hk. lia.
  - reflexivity.
  - reflexivity.
  - right. left. exists (py "edit"). reflexivity.
Defined.

(** X15. An id that is returned is a non-empty string of digits, without [/]
    or [?], and the path holds [/notes/] or [/shared/]. *)
Theorem extract_note_id_digits
    (url_path : str -> str) (isdigit_char : char -> bool) (url id : str)
    (Hsome : extract_note_id_from_url url_path isdigit_char url = Some id) :
  id <> []
  /\ forallb isdigit_char id = true
  /\ ~ In 47%N id /\ ~ In 63%N id
  /\ (contains (url_path url) (py "/notes/")
      || contains (url_path url) (py "/shared/")) = true.
Proof.
  unfold extract_note_id_from_url in Hsome. cbv zeta in Hsome.
  set (piece := last (split_str (py "/notes/") (url_path url)) []) in *.
  assert (Hgen : (if str_isdigit isdigit_char
                       (hd [] (split 63%N (hd [] (split 47%N piece))))
                  then Some (hd [] (split 63%N (hd [] (split 47%N piece))))
                  else None) = Some id ->
                 id <> [] /\ forallb isdigit_char id = true
                 /\ ~ In 47%N id /\ ~ In 63%N id).
  { destruct (str_isdigit isdigit_char
                (hd [] (split 63%N (hd [] (split 47%N piece))))) eqn:E;
      [|discriminate].
    intros H. injection H as <-. unfold str_isdigit in E.
    apply andb_true_iff in E as [Hne Hall].
    split; [intros H0; rewrite H0 in Hne; discriminate|].
    split; [exact Hall|]. split; [|apply hd_split_no_sep].
    intros H. apply hd_split_In in H.
    exact (hd_split_no_sep 47%N piece H). }
  destruct (contains (url_path url) (py "/notes/")).
  - destruct (Hgen Hsome) as [H1 [H2 [H3 H4]]]. repeat split; assumption.
  - destruct (contains (url_path url) (py "/shared/")); [|discriminate].
    destruct (Hgen Hsome) as [H1 [H2 [H3 H4]]]. repeat split; assumption.
Qed.

Lemma extract_note_id_digits_witness :
  py "12" <> []
  /\ forallb ascii_isdigit (py "12") = true
  /\ ~ In 47%N (py "12") /\ ~ In 63%N (py "12")
  /\ (contains (py "/notes/12?x") (py "/notes/")
      || contains (py "/notes/12?x") (py "/shared/")) = true.
Proof.
  apply (extract_note_id_digits (fun url => url) ascii_isdigit
           (py "/notes/12?x") (py "12")).
  reflexivity.
Defined.

(** X16. The [/shared/] alternative alone never gives an id for an absolute
    path: without a [/notes/] segment, a path that starts with [/] is
    refused. *)
Theorem extract_note_id_needs_notes
    (url_path : str -> str) (isdigit_char : char -> bool) (url r : str)
    (Habs : url_path url = 47%N :: r)
    (Hno : contains (url_path url) (py "/notes/") = false) :
  extract_note_id_from_url url_path isdigit_char url = None.
Proof.
  unfold extract_note_id_from_url. cbv zeta. rewrite Hno.
  destruct (contains (url_path url) (py "/shared/")); [|reflexivity].
  unfold split_str.
  rewrite (split_str_go_nomatch (py "/notes/") [] (url_path url) Hno).
  rewrite Habs. reflexivity.
Qed.

Lemma extract_note_id_needs_notes_witness :
  extract_note_id_from_url (fun url => url) ascii_isdigit
    (py "/shared/123") = None.
Proof.
  apply (extract_note_id_needs_notes (fun url => url) ascii_isdigit
           (py "/shared/123") (py "shared/123")).
  - reflexivity.
  - reflexivity.
Defined.

(** ** A block followed by content, or by nothing, grows *)

Lemma strip_not_indented (l : str) :
  startswith (strip l) (py "  -") = false.
Proof.
  pose proof (strip_by_trimmed isspace l) as [Hh _]. fold (strip l) in Hh.
  destruct (strip l) as [|c r]; [reflexivity|].
  specialize (Hh c r eq_refl). simpl.
  destruct (N.eqb c 32) eqn:E; [|reflexivity].
  apply N.eqb_eq in E. subst. discriminate.
Qed.

Lemma line_at_app (X Y : list str) (m : nat) :
  line_at (X ++ Y) (length X + m) = line_at Y m.
Proof. unfold line_at. apply app_nth2_plus. Qed.

Lemma block_last_entry (h : Heading) (hs : list Heading) (A : list str) :
  nonblank (line_at (toc_lines (h :: hs) ++ A) (length (h :: hs) + 1)) = true.
Proof.
  unfold line_at. rewrite app_nth1 by (rewrite toc_lines_length; lia).
  unfold toc_lines.
  change (toc_header :: [] :: map toc_entry (h :: hs) ++ [[]])
    with ([toc_header; []] ++ map toc_entry (h :: hs) ++ [[]]).
  rewrite app_nth2 by (simpl; lia).
  rewrite app_nth1 by (rewrite length_map; simpl; lia).
  replace (length (h :: hs) + 1 - length [toc_header; []])
    with (length hs) by (simpl; lia).
  rewrite (nth_indep _ [] (toc_entry h)) by (rewrite length_map; simpl; lia).
  rewrite map_nth. apply toc_entry_nonblank.
Qed.

Lemma block_closing_blank (h : Heading) (hs : list Heading) (A : list str) :
  line_at (toc_lines (h :: hs) ++ A) (length (h :: hs) + 2) = [].
Proof.
  unfold line_at. rewrite app_nth1 by (rewrite toc_lines_length; lia).
  unfold toc_lines.
  change (toc_header :: [] :: map toc_entry (h :: hs) ++ [[]])
    with ([toc_header; []] ++ map toc_entry (h :: hs) ++ [[]]).
  rewrite app_nth2 by (simpl; lia).
  rewrite app_nth2 by (rewrite length_map; simpl; lia).
  rewrite length_map.
  replace (length (h :: hs) + 2 - length [toc_header; []]
           - length (h :: hs)) with 0 by (simpl; lia).
  reflexivity.
Qed.

(** The end bound of a block that closes the document or is followed by
    a content line: one past its last entry. *)
Lemma toc_end_from_block_end (X : list str) (h : Heading) (hs : list Heading)
      (A : list str) :
  (A = [] \/ exists c rest, A = c :: rest /\ is_content c = true) ->
  toc_end_from (X ++ toc_lines (h :: hs) ++ A) (length X)
  = Some (length X + length (h :: hs) + 2).
Proof.
  intros HA. unfold toc_end_from.
  set (n := length (h :: hs)).
  set (L := X ++ toc_lines (h :: hs) ++ A).
  assert (Hlen : length L = length X + (n + 3) + length A).
  { unfold L. rewrite !length_app, toc_lines_length. fold n. lia. }
  assert (Hsk : skipn (length X + 1) L
                = ([] :: map toc_entry (h :: hs) ++ [[]]) ++ A).
  { unfold L. rewrite skipn_app, skipn_all2 by lia.
    replace (length X + 1 - length X) with 1 by lia. reflexivity. }
  assert (Hentry : nonblank (line_at L (length X + (n + 1))) = true).
  { unfold L. rewrite line_at_app. apply block_last_entry. }
  assert (Hblank : nonblank (line_at L (length X + (n + 2))) = false).
  { unfold L. rewrite line_at_app. unfold n.
    rewrite block_closing_blank. reflexivity. }
  rewrite Hsk, scan_end_pass by apply toc_lines_tail_pass.
  match goal with
  | |- context [scan_end _ _ ?j _] =>
      replace j with (length X + n + 3)
        by (unfold n; simpl; rewrite length_app, length_map; simpl; lia)
  end.
  replace (length X + n + 2) with (length X + (n + 1) + 1) by lia.
  destruct HA as [->|[c [rest [-> Hc]]]].
  - cbn [scan_end]. change (@length str []) with 0 in Hlen.
    apply look_back_exact.
    + lia.
    + lia.
    + exact Hentry.
    + intros m Hm.
      assert (m = length X + (n + 2)) as -> by lia. exact Hblank.
  - unfold is_content in Hc. apply andb_true_iff in Hc as [Hc Hnb].
    apply andb_true_iff in Hc as [Hnbl Hnl].
    apply negb_true_iff in Hnb, Hnl.
    rewrite scan_end_cons, Hnb, Hnbl, Hnl, strip_not_indented.
    assert ((length X + 1 <? length X + n + 3) = true) as ->
        by (apply Nat.ltb_lt; lia).
    cbn [andb negb].
    rewrite (look_back_exact L (length X + n + 3 - 1)
               (length X + n + 3 - 1 - length X) (length X + (n + 1))).
    + reflexivity.
    + lia.
    + lia.
    + exact Hentry.
    + intros m Hm. assert (m = length X + (n + 2)) as -> by lia.
      exact Hblank.
Qed.

Lemma skipn_block (X : list str) (h : Heading) (hs : list Heading)
      (A : list str) :
  skipn (length X + length (h :: hs) + 2) (X ++ toc_lines (h :: hs) ++ A)
  = [] :: A.
Proof.
  rewrite skipn_app, skipn_all2 by lia.
  replace (length X + length (h :: hs) + 2 - length X)
    with (length (h :: hs) + 2) by lia.
  change (toc_lines (h :: hs))
    with ((toc_header :: [] :: map toc_entry (h :: hs)) ++ [[]]).
  rewrite <- app_assoc.
  rewrite skipn_app, skipn_all2 by (simpl; rewrite length_map; simpl; lia).
  replace (length (h :: hs) + 2
           - length (toc_header :: [] :: map toc_entry (h :: hs)))
    with 0 by (simpl; rewrite length_map; simpl; lia).
  reflexivity.
Qed.

Lemma join_blank_last (ls : list str) :
  ls <> [] -> join nl (ls ++ [[]]) = join nl ls ++ nl.
Proof.
  induction ls as [|l ls IH]; intros Hne; [congruence|].
  destruct ls as [|l' ls].
  - reflexivity.
  - change ((l :: l' :: ls) ++ [[]]) with (l :: ((l' :: ls) ++ [[]])).
    rewrite join_cons by (simpl; discriminate).
    rewrite (join_cons nl l (l' :: ls)) by discriminate.
    rewrite IH by discriminate. rewrite <- !app_assoc. reflexivity.
Qed.

(** X17. When the lines kept behind the block are none at all, or begin with a
    content line, splicing the same rendering again puts one more blank
    line behind the block: the located block stops before the blank line
    that closes the rendering.  So the second splice always changes the
    document, and a block that ends the document gains a newline.  The
    rendered headings hold no newline in text or anchor, as every
    extracted heading does. *)
Theorem splice_again_grows
    (D : str) (h : Heading) (hs : list Heading)
    (Hclean : Forall clean (h :: hs))
    (Hafter : kept_after D = []
              \/ exists c rest,
                   kept_after D = c :: rest /\ is_content c = true) :
  let toc := generate_toc (h :: hs) in
  let D1 := insert_or_update_toc D toc in
  split NL D1 = kept_before D ++ toc_lines (h :: hs) ++ kept_after D
  /\ split NL (insert_or_update_toc D1 toc)
     = kept_before D ++ toc_lines (h :: hs) ++ [] :: kept_after D
  /\ insert_or_update_toc D1 toc <> D1
  /\ (kept_after D = [] -> insert_or_update_toc D1 toc = D1 ++ nl).
Proof.
  intros toc D1.
  destruct (frame_lines_ok D toc) as [Hne Hnl].
  destruct (kept_no_nl D) as [Hnb Hna].
  assert (HL1 : split NL D1
                = kept_before D ++ toc_lines (h :: hs) ++ kept_after D).
  { unfold D1. rewrite insert_or_update_toc_frame.
    rewrite split_join by assumption. unfold toc.
    rewrite generate_toc_clean_lines by exact Hclean. reflexivity. }
  assert (Hfind : find_existing_toc D1
                  = (Some (length (kept_before D)),
                     Some (length (kept_before D) + length (h :: hs) + 2))).
  { unfold find_existing_toc. rewrite HL1.
    assert (HL : kept_before D ++ toc_lines (h :: hs) ++ kept_after D
                 = kept_before D
                   ++ toc_header
                      :: ([] :: map toc_entry (h :: hs) ++ [[]])
                         ++ kept_after D) by reflexivity.
    rewrite HL at 2.
    rewrite (find_loop_hit _ 0 (kept_before D) toc_header
               (([] :: map toc_entry (h :: hs) ++ [[]]) ++ kept_after D)
               (kept_before_no_header D) toc_header_is_header).
    rewrite Nat.add_0_l. f_equal.
    apply toc_end_from_block_end. exact Hafter. }
  assert (HL2 : split NL (insert_or_update_toc D1 toc)
                = kept_before D ++ toc_lines (h :: hs) ++ [] :: kept_after D).
  { rewrite (insert_or_update_toc_frame D1).
    destruct (frame_lines_ok D1 toc) as [Hne1 Hnl1].
    rewrite split_join by assumption.
    unfold kept_before at 1, kept_after at 1. rewrite Hfind, HL1.
    rewrite firstn_app, firstn_all, Nat.sub_diag. simpl firstn.
    rewrite app_nil_r. f_equal. unfold toc.
    rewrite generate_toc_clean_lines by exact Hclean.
    fold (toc_lines (h :: hs)). f_equal.
    apply skipn_block. }
  split; [exact HL1|]. split; [exact HL2|]. split.
  - intros Heq. rewrite Heq, HL1 in HL2.
    apply (f_equal (@length str)) in HL2. rewrite !length_app in HL2.
    simpl in HL2. lia.
  - intros Hnil. rewrite <- (join_split NL (insert_or_update_toc D1 toc)).
    rewrite <- (join_split NL D1) at 2.
    rewrite HL2, HL1, Hnil, app_nil_r.
    rewrite app_assoc. apply join_blank_last.
    intros H0. apply app_eq_nil in H0 as [_ H0]. discriminate.
Qed.

Lemma splice_again_grows_witness :
  let D := join nl [py "# T"; py "text"] in
  let toc := generate_toc [mkHeading 1 (py "T") (py "t") 1] in
  let D1 := insert_or_update_toc D toc in
  split NL D1
  = kept_before D ++ toc_lines [mkHeading 1 (py "T") (py "t") 1]
    ++ kept_after D
  /\ split NL (insert_or_update_toc D1 toc)
     = kept_before D ++ toc_lines [mkHeading 1 (py "T") (py "t") 1]
       ++ [] :: kept_after D
  /\ insert_or_update_toc D1 toc <> D1
  /\ (kept_after D = [] -> insert_or_update_toc D1 toc = D1 ++ nl).
Proof.
  apply (splice_again_grows (join nl [py "# T"; py "text"])
           (mkHeading 1 (py "T") (py "t") 1) []).
  - repeat constructor; simpl; intuition discriminate.
  - right. exists (py "text"), []. split; reflexivity.
Defined.

(** ** Anchors of ASCII text *)

(** X18. With tables that are the usual ones on ASCII, the anchor of an ASCII
    text holds only lowercase letters, digits and hyphens. *)
Theorem generate_anchor_ascii_chars
    (isalnum : char -> bool) (lower : str -> str) (x : str)
    (Htab : ascii_tables isalnum lower) (Hx : ascii_str x) :
  forall c, In c (generate_anchor isalnum lower x) ->
    c = 45%N \/ (48 <= c <= 57)%N \/ (97 <= c <= 122)%N.
Proof.
  rewrite (generate_anchor_ascii isalnum lower x Htab Hx).
  rewrite generate_anchor_steps. intros c Hc.
  destruct (slug_spec_chars ascii_isalnum ascii_lower x c Hc) as [->|[_ Ha]];
    [left; reflexivity|].
  right. unfold slug_spec, trim_hyphens, hyphenate_runs in Hc.
  apply strip_by_In in Hc. apply collapse_runs_In in Hc as [Hc|[Hc _]].
  { destruct Hc as [<-|[]]. discriminate Ha. }
  unfold keep_slug_chars in Hc. apply filter_In in Hc as [Hc _].
  unfold ascii_lower in Hc. apply in_map_iff in Hc as [y [Hy _]].
  unfold ascii_isalnum in Ha. unfold ascii_lower_char in Hy.
  destruct ((65 <=? y) && (y <=? 90))%N eqn:Ey.
  - apply andb_true_iff in Ey as [E1 E2]. apply N.leb_le in E1, E2.
    right. lia.
  - subst y.
    apply orb_true_iff in Ha as [Ha|Ha].
    + apply orb_true_iff in Ha as [Ha|Ha].
      * apply andb_true_iff in Ha as [E1 E2]. apply N.leb_le in E1, E2.
        left. lia.
      * rewrite Ha in Ey. discriminate.
    + apply andb_true_iff in Ha as [E1 E2]. apply N.leb_le in E1, E2.
      right. lia.
Qed.

Lemma generate_anchor_ascii_chars_witness :
  ascii_str (py "Setup *Guide*!") /\
  In 115%N (generate_anchor ascii_isalnum ascii_lower (py "Setup *Guide*!")) /\
  (115%N = 45%N \/ (48 <= 115 <= 57)%N \/ (97 <= 115 <= 122)%N).
Proof.
  assert (Hx : ascii_str (py "Setup *Guide*!"))
    by (unfold ascii_str; repeat constructor).
  assert (Hin : In 115%N
            (generate_anchor ascii_isalnum ascii_lower (py "Setup *Guide*!")))
    by (left; reflexivity).
  split; [exact Hx|]. split; [exact Hin|].
  exact (generate_anchor_ascii_chars ascii_isalnum ascii_lower
           (py "Setup *Guide*!") ascii_tables_self Hx 115%N Hin).
Defined.
